(** * A shallow embedding of [quiz.py] (vterzi/quiz)

    Python strings are sequences of Unicode code points; they are modelled
    as [list Z].  ASCII literals are written with [u "..."].  The console
    and the random generator are threaded through a small state/exception
    monad [M]: the world holds the remaining input lines, the remaining
    random draws and the printed lines. *)

From Stdlib Require Import ZArith List String Ascii Bool Lia QArith Qround Qabs Qpower Sorted Lqa.
Import ListNotations.
Open Scope string_scope.
Open Scope list_scope.
Open Scope Z_scope.

(** ** Python strings *)

Definition pystr := list Z.

Definition u (s : string) : pystr :=
  map (fun a => Z.of_nat (nat_of_ascii a)) (list_ascii_of_string s).

Arguments u : simpl never.

Definition str_eqb (a b : pystr) : bool :=
  if list_eq_dec Z.eq_dec a b then true else false.

Lemma str_eqb_eq a b : str_eqb a b = true <-> a = b.
Proof. unfold str_eqb; destruct (list_eq_dec Z.eq_dec a b); split; congruence. Qed.

(** Python's [<] on [str]: lexicographic order on code points. *)
Fixpoint str_ltb (a b : pystr) : bool :=
  match a, b with
  | [], [] => false
  | [], _ :: _ => true
  | _ :: _, [] => false
  | x :: a', y :: b' =>
      if x <? y then true else if y <? x then false else str_ltb a' b'
  end.

(** [sorted] on a list of strings (insertion sort; equal strings are
    identical, so stability is irrelevant). *)
Fixpoint insert_str (x : pystr) (l : list pystr) : list pystr :=
  match l with
  | [] => [x]
  | y :: l' => if str_ltb y x then y :: insert_str x l' else x :: l
  end.

Fixpoint sorted_str (l : list pystr) : list pystr :=
  match l with
  | [] => []
  | x :: l' => insert_str x (sorted_str l')
  end.

(** [sep.join(l)] *)
Fixpoint join (sep : pystr) (l : list pystr) : pystr :=
  match l with
  | [] => []
  | [x] => x
  | x :: l' => x ++ sep ++ join sep l'
  end.

(** Python sets of strings, as duplicate-free lists: [s.add(x)] and
    [x in s]. *)
Definition mem (x : pystr) (s : list pystr) : bool := existsb (str_eqb x) s.

Definition set_add (x : pystr) (s : list pystr) : list pystr :=
  if mem x s then s else s ++ [x].

(** [set(l)] *)
Definition to_set (l : list pystr) : list pystr :=
  fold_left (fun s x => set_add x s) l [].

(** [p] is a prefix of [s] *)
Fixpoint is_prefix (p s : pystr) : bool :=
  match p, s with
  | [], _ => true
  | _, [] => false
  | x :: p', y :: s' => (x =? y) && is_prefix p' s'
  end.

(** [p in s] for strings (substring test) *)
Fixpoint contains (p s : pystr) : bool :=
  is_prefix p s || match s with [] => false | _ :: s' => contains p s' end.

(** [s.split(sep)]: the pieces are cut at the leftmost occurrences of
    [sep]; the current piece is kept reversed. *)
Fixpoint split_go (sep s cur : pystr) : list pystr :=
  match s with
  | [] => [rev cur]
  | c :: s' =>
      let cur' := c :: cur in
      if is_prefix (rev sep) cur'
      then rev (skipn (List.length sep) cur') :: split_go sep s' []
      else split_go sep s' cur'
  end.

Definition py_split (sep s : pystr) : list pystr := split_go sep s [].

(** [s.replace(old, new)]: non-overlapping, left to right.  [done] is the
    reversed output so far, [pend] the reversed characters read since the
    last replacement. *)
Fixpoint replace_go (old new s done pend : pystr) : pystr :=
  match s with
  | [] => rev (pend ++ done)
  | c :: s' =>
      let pend' := c :: pend in
      if is_prefix (rev old) pend'
      then replace_go old new s' (rev new ++ skipn (List.length old) pend' ++ done) []
      else replace_go old new s' done pend'
  end.

Definition py_replace (old new s : pystr) : pystr := replace_go old new s [] [].

(** [str.isspace] for one character (the whitespace of [str.strip]). *)
Definition py_isspace (c : Z) : bool :=
  ((9 <=? c) && (c <=? 13)) || ((28 <=? c) && (c <=? 32)) || (c =? 133)
  || (c =? 160) || (c =? 5760) || ((8192 <=? c) && (c <=? 8202))
  || (c =? 8232) || (c =? 8233) || (c =? 8239) || (c =? 8287) || (c =? 12288).

Fixpoint lstrip (s : pystr) : pystr :=
  match s with
  | c :: s' => if py_isspace c then lstrip s' else s
  | [] => []
  end.

(** [s.strip()] *)
Definition strip (s : pystr) : pystr := rev (lstrip (rev (lstrip s))).

(** [str.upper] on the first character of the heads the program prints,
    which all start with an ASCII letter. *)
Definition upper_char (c : Z) : Z := if (97 <=? c) && (c <=? 122) then c - 32 else c.

Definition capitalize (s : pystr) : pystr :=
  match s with [] => [] | c :: s' => upper_char c :: s' end.

(** Decimal digits: [str(n)] for an integer. *)
Fixpoint digits_rev (fuel : nat) (n : Z) : pystr :=
  match fuel with
  | O => []
  | S f => if n <? 10 then [48 + n] else (48 + n mod 10) :: digits_rev f (n / 10)
  end.

Definition nat_to_s (n : Z) : pystr := rev (digits_rev (S (Z.to_nat (Z.log2 n))) n).

Definition z2s (z : Z) : pystr := if z <? 0 then 45 :: nat_to_s (- z) else nat_to_s z.

(** The code points of the digit zero of the 66 runs of decimal digits
    (general category Nd) of Unicode 14.0, the version of Python 3.11's
    [unicodedata]; [int] and [float] read every one of them. *)
Definition DECIMAL_ZEROS : list Z := [
  48; 1632; 1776; 1984; 2406; 2534; 2662; 2790; 2918; 3046; 3174; 3302; 3430; 3558;
  3664; 3792; 3872; 4160; 4240; 6112; 6160; 6470; 6608; 6784; 6800; 6992; 7088; 7232;
  7248; 42528; 43216; 43264; 43472; 43504; 43600; 44016; 65296; 66720; 68912; 69734;
  69872; 69942; 70096; 70384; 70736; 70864; 71248; 71360; 71472; 71904; 72016; 72784;
  73040; 73120; 92768; 92864; 93008; 120782; 120792; 120802; 120812; 120822; 123200;
  123632; 125264; 130032].

Definition digit_val (c : Z) : option Z :=
  match find (fun z => (z <=? c) && (c <=? z + 9)) DECIMAL_ZEROS with
  | Some z => Some (c - z)
  | None => None
  end.

Fixpoint digits_go (s : pystr) (acc : Z) (after_us : bool) : option Z :=
  match s with
  | [] => if after_us then None else Some acc
  | c :: s' =>
      match digit_val c with
      | Some d => digits_go s' (10 * acc + d) false
      | None => if (c =? 95) && negb after_us then digits_go s' acc true else None
      end
  end.

Definition parse_digits (s : pystr) : option Z :=
  match s with
  | c :: s' => match digit_val c with Some d => digits_go s' d false | None => None end
  | [] => None
  end.

(** The number of digits of a string. *)
Definition count_digits (s : pystr) : nat :=
  List.length (filter (fun c => match digit_val c with Some _ => true | None => false end) s).

(** [int(s)] on a string: surrounding whitespace, an optional sign,
    decimal digits with single underscores between them.  [None] is the
    [ValueError], also raised for more than 4300 digits (the default
    [sys.get_int_max_str_digits()] of Python 3.11). *)
Definition py_int (s : pystr) : option Z :=
  let t := strip s in
  if (4300 <? count_digits t)%nat then None else
  match t with
  | 43 :: r => parse_digits r
  | 45 :: r => option_map Z.opp (parse_digits r)
  | t => parse_digits t
  end.

(** The code point ranges of the characters [str.isdigit] accepts in
    Python 3.11 (Unicode 14.0, numeric type Decimal or Digit): the decimal
    digits of [DECIMAL_ZEROS] and digits such as superscripts and circled
    numbers, which [int] rejects. *)
Definition DIGIT_RANGES : list (Z * Z) := [
  (48, 57); (178, 179); (185, 185); (1632, 1641); (1776, 1785); (1984, 1993);
  (2406, 2415); (2534, 2543); (2662, 2671); (2790, 2799); (2918, 2927); (3046, 3055);
  (3174, 3183); (3302, 3311); (3430, 3439); (3558, 3567); (3664, 3673); (3792, 3801);
  (3872, 3881); (4160, 4169); (4240, 4249); (4969, 4977); (6112, 6121); (6160, 6169);
  (6470, 6479); (6608, 6618); (6784, 6793); (6800, 6809); (6992, 7001); (7088, 7097);
  (7232, 7241); (7248, 7257); (8304, 8304); (8308, 8313); (8320, 8329); (9312, 9320);
  (9332, 9340); (9352, 9360); (9450, 9450); (9461, 9469); (9471, 9471); (10102, 10110);
  (10112, 10120); (10122, 10130); (42528, 42537); (43216, 43225); (43264, 43273);
  (43472, 43481); (43504, 43513); (43600, 43609); (44016, 44025); (65296, 65305);
  (66720, 66729); (68160, 68163); (68912, 68921); (69216, 69224); (69714, 69722);
  (69734, 69743); (69872, 69881); (69942, 69951); (70096, 70105); (70384, 70393);
  (70736, 70745); (70864, 70873); (71248, 71257); (71360, 71369); (71472, 71481);
  (71904, 71913); (72016, 72025); (72784, 72793); (73040, 73049); (73120, 73129);
  (92768, 92777); (92864, 92873); (93008, 93017); (120782, 120831); (123200, 123209);
  (123632, 123641); (125264, 125273); (127232, 127242); (130032, 130041)].

Definition isdigit_char (c : Z) : bool :=
  existsb (fun r => (fst r <=? c) && (c <=? snd r)) DIGIT_RANGES.

Definition py_isdigit (s : pystr) : bool :=
  match s with [] => false | _ => forallb isdigit_char s end.

(** ** Constants of the module *)

Definition MAX_N_OPTS : Z := 8.
Definition DELIM : pystr := u ",".
Definition NONE : pystr := u "-".
(** ['mμnpfazyrq'] *)
Definition NEG_PREFIXES : pystr := [109; 956; 110; 112; 102; 97; 122; 121; 114; 113].
Definition POS_PREFIXES : pystr := u "kMGTPEZYRQ".

Definition arr2str (arr : list pystr) : pystr := join (DELIM ++ u " ") (sorted_str arr).

(** ** Console, randomness and exceptions *)

Inductive exn :=
| InputException | TypeError | ValueError | IndexError | KeyError
| UnboundLocalError | EOFError | OverflowError
| OutOfFuel (* a loop ran out of random draws: it does not terminate *).

Inductive res (A : Type) := Ok (a : A) | Err (e : exn).
Arguments Ok {A} a.
Arguments Err {A} e.

Record world := World { inputs : list pystr; rands : list Z; outputs : list pystr }.

Definition M (A : Type) := world -> res A * world.

Definition ret {A} (a : A) : M A := fun w => (Ok a, w).

Definition bind {A B} (m : M A) (k : A -> M B) : M B :=
  fun w => match m w with
           | (Ok a, w') => k a w'
           | (Err e, w') => (Err e, w')
           end.

Notation "x <- m ;; k" := (bind m (fun x => k))
  (at level 61, m at next level, right associativity).
Notation "m ;; k" := (bind m (fun _ => k)) (at level 61, right associativity).

Definition raise {A} (e : exn) : M A := fun w => (Err e, w).

(** [try: m except E: h] for the exceptions [catches] selects. *)
Definition try_except {A} (catches : exn -> bool) (m : M A) (h : M A) : M A :=
  fun w => match m w with
           | (Err e, w') => if catches e then h w' else (Err e, w')
           | r => r
           end.

Definition print (s : pystr) : M unit :=
  fun w => (Ok tt, World (inputs w) (rands w) (outputs w ++ [s])).

(** [input()]; at the end of the input stream Python raises [EOFError]. *)
Definition input : M pystr :=
  fun w => match inputs w with
           | [] => (Err EOFError, w)
           | l :: rest => (Ok l, World rest (rands w) (outputs w))
           end.

(** [random.randint(0, n - 1)]: the next draw, brought into range. *)
Definition randint0 (n : Z) : M Z :=
  fun w => match rands w with
           | [] => (Err OutOfFuel, w)
           | r :: rest => (Ok (r mod n), World (inputs w) rest (outputs w))
           end.

(** Each loop iteration that reads a line needs at most one unit of fuel
    per remaining line, and one that draws a random number one per draw. *)
Definition input_fuel : M nat := fun w => (Ok (S (List.length (inputs w))), w).
Definition rand_fuel : M nat := fun w => (Ok (S (List.length (rands w))), w).

Definition errmsg (s : pystr) : M unit := print (u "Error: " ++ s ++ u ".").

(** ** Reading answers *)

(** [read_input()] (the [arr=False] case) *)
Definition read_input_line : M pystr :=
  tokens <- input ;;
  let tokens := strip tokens in
  match tokens with
  | [] => raise InputException
  | _ => ret tokens
  end.

(** [read_input(True, multiple)] *)
Definition read_input_arr (multiple : bool) : M (list pystr) :=
  tokens <- read_input_line ;;
  ret (if multiple then map strip (py_split DELIM tokens) else [tokens]).

Definition choose (head : pystr) (multiple : bool) : M pystr :=
  print (u "
" ++ capitalize head ++ u ":") ;;
  choice <- read_input_arr multiple ;;
  ret (arr2str choice).

(** The value bound to [choice] in [choose_int]: an [int] once [int()]
    succeeded, otherwise still the [str] that was read. *)
Inductive pyval_is := PInt (z : Z) | PStr (s : pystr).

Fixpoint choose_int_loop (fuel : nat) (choices : pystr) (lower upper : Z)
    (other : list Z) : M Z :=
  match fuel with
  | O => raise OutOfFuel
  | S f =>
      choice <- read_input_line ;;
      cr <- (match py_int choice with
             | Some z => ret (PInt z, false)
             | None => errmsg (u "Only an integer is accepted") ;; ret (PStr choice, true)
             end) ;;
      let '(choice, repeat) := cr in
      (* [lower <= choice <= upper or choice in other]: comparing an [int]
         with a [str] raises [TypeError] *)
      ok <- (match choice with
             | PInt z => ret (((lower <=? z) && (z <=? upper)) || existsb (Z.eqb z) other)
             | PStr _ => raise TypeError
             end) ;;
      repeat <- (if ok then ret repeat
                 else errmsg (u "The integer should be one of " ++ choices) ;; ret true) ;;
      if repeat then choose_int_loop f choices lower upper other
      else match choice with PInt z => ret z | PStr _ => raise TypeError end
  end.

Definition choose_int (head : pystr) (lower upper : Z) (other : list Z) : M Z :=
  let choices := z2s lower ++ u ".." ++ z2s upper in
  let choices := match other with
                 | [] => choices
                 | _ => choices ++ u " or " ++ arr2str (map z2s other)
                 end in
  print (u "
" ++ capitalize head ++ u " (" ++ choices ++ u "):") ;;
  fuel <- input_fuel ;;
  choose_int_loop fuel choices lower upper other.

(** The [for token in tokens] loop of [choose_opts]; [None] is the
    [break] that sets [repeat = True]. *)
Fixpoint opts_tokens (choices : list pystr) (multiple : bool) (tokens : list pystr)
    (choice : list pystr) : M (option (list pystr)) :=
  match tokens with
  | [] => ret (Some choice)
  | token :: rest =>
      if py_isdigit token then
        match py_int token with
        | None => raise ValueError
        | Some n =>
            let idx := n - 1 in
            if (0 <=? idx) && (idx <? Z.of_nat (List.length choices)) then
              opts_tokens choices multiple rest (set_add (nth (Z.to_nat idx) choices []) choice)
            else errmsg (token ++ u " is not a valid option index") ;; ret None
        end
      else
        errmsg (if contains DELIM token && negb multiple
                then u "Only one option index is accepted"
                else u "Only option indices are accepted") ;;
        ret None
  end.

Fixpoint choose_opts_loop (fuel : nat) (choices : list pystr) (multiple : bool)
    : M pystr :=
  match fuel with
  | O => raise OutOfFuel
  | S f =>
      tokens <- read_input_arr multiple ;;
      r <- opts_tokens choices multiple tokens [] ;;
      match r with
      | Some choice => ret (arr2str choice)
      | None => choose_opts_loop f choices multiple
      end
  end.

Fixpoint enum_lines (brackets : pystr * pystr) (i : Z) (choices : list pystr) : list pystr :=
  match choices with
  | [] => []
  | c :: cs => (fst brackets ++ z2s (i + 1) ++ snd brackets ++ u " " ++ c)
                 :: enum_lines brackets (i + 1) cs
  end.

Definition choose_opts (head : pystr) (choices : list pystr) (multiple : bool) : M pystr :=
  let brackets := if multiple then (u "[", u "]") else (u "(", u ")") in
  let body := join (u "
") (enum_lines brackets 0 choices) in
  print (u "
" ++ capitalize head ++ u ":
" ++ body) ;;
  fuel <- input_fuel ;;
  choose_opts_loop fuel choices multiple.

(** ** Numbers: [exponent], [short_float], [adjust_float]

    A Python [float] is an IEEE 754 binary64 value: [FFin q] holds its
    exact value [q] (the sign of a zero is not kept), [FInf] an infinity
    and [FNaN] a nan.  [to_double] is the correctly rounded conversion
    (round half to even) that [float(str)], [float(int)], [*] and [round]
    perform; [pow(10.0, k)] for [k < 0] is taken to be correctly rounded
    as well. *)

Inductive pyfloat := FFin (q : Q) | FInf (neg : bool) | FNaN.

(** Round half to even. *)
Definition round_he (y : Q) : Z :=
  let f := Qfloor y in
  match Qcompare (Qminus y (inject_Z f)) (1 # 2) with
  | Lt => f
  | Gt => f + 1
  | Eq => if Z.even f then f else f + 1
  end.

Definition pow2q (z : Z) : Q := Qpower (inject_Z 2) z.

(** [a < b] on exact values. *)
Definition Qlt_bool (a b : Q) : bool := match Qcompare a b with Lt => true | _ => false end.

(** [floor(log2 a)] for [a > 0]. *)
Definition qlog2 (a : Q) : Z :=
  let t := Z.log2 (Qnum a) - Z.log2 (Zpos (Qden a)) in
  if Qlt_bool a (pow2q t) then t - 1 else t.

(** The binary64 value nearest to [x], ties to even: 53 significant bits,
    and the fixed spacing [2^-1074] of the subnormals below [2^-1022]. *)
Definition round_bin64 (x : Q) : Q :=
  if Qeq_bool x 0 then 0 else
  let ulp := pow2q (Z.max (qlog2 (Qabs x)) (-1022) - 52) in
  Qmult (inject_Z (round_he (Qdiv x ulp))) ulp.

(** The double nearest to [x]: an infinity once the rounded value
    reaches [2^1024]. *)
Definition to_double (x : Q) : pyfloat :=
  let y := round_bin64 x in
  if Qle_bool (pow2q 1024) (Qabs y) then FInf (Qlt_bool x 0) else FFin y.

(** The argument of [short_float]: a [str] (from [adjust_float]) or a
    JSON number ([int], or [float] given by its [repr]). *)
Inductive pyval := VStr (s : pystr) | VInt (z : Z) | VFloat (repr : pystr).

Definition py_str (v : pyval) : pystr :=
  match v with VStr s => s | VInt z => z2s z | VFloat r => r end.

(** The longest prefix made of digits with single underscores between
    them: its value, its number of digits and the rest of the string. *)
Fixpoint scan_digits (s : pystr) (acc : Z) (n : nat) : Z * nat * pystr :=
  match s with
  | c :: s' =>
      match digit_val c with
      | Some d => scan_digits s' (10 * acc + d) (S n)
      | None =>
          if (c =? 95) && (0 <? n)%nat then
            match s' with
            | c2 :: s'' =>
                match digit_val c2 with
                | Some d => scan_digits s'' (10 * acc + d) (S n)
                | None => (acc, n, s)
                end
            | [] => (acc, n, s)
            end
          else (acc, n, s)
      end
  | [] => (acc, n, s)
  end.

Definition pow10q (z : Z) : Q := Qpower (inject_Z 10) z.

(** A decimal literal [digits[.digits][(e|E)[+|-]digits]]. *)
Definition parse_decimal (s : pystr) : option Q :=
  let '(ip, ni, r1) := scan_digits s 0 0 in
  let '(fp, nf, r2) := match r1 with
                       | 46 :: r => scan_digits r 0 0
                       | _ => (0, O, r1)
                       end in
  if (ni + nf =? 0)%nat then None else
  let ex := match r2 with
            | [] => Some 0
            | c :: r => if (c =? 101) || (c =? 69) then
                          let '(neg, r') := match r with
                                            | 43 :: r' => (false, r')
                                            | 45 :: r' => (true, r')
                                            | _ => (false, r)
                                            end in
                          let '(x, nx, r'') := scan_digits r' 0 0 in
                          match r'' with
                          | [] => if (nx =? 0)%nat then None
                                  else Some (if neg then - x else x)
                          | _ => None
                          end
                        else None
            end in
  match ex with
  | None => None
  | Some x => Some (Qmult (inject_Z (ip * 10 ^ Z.of_nat nf + fp)) (pow10q (x - Z.of_nat nf)))
  end.

Definition lower_ascii (c : Z) : Z := if (65 <=? c) && (c <=? 90) then c + 32 else c.

(** [float(s)] for a [str]. *)
Definition py_float_str (s : pystr) : res pyfloat :=
  let t := strip s in
  let '(neg, body) := match t with
                      | 43 :: r => (false, r)
                      | 45 :: r => (true, r)
                      | _ => (false, t)
                      end in
  let lb := map lower_ascii body in
  if str_eqb lb (u "inf") || str_eqb lb (u "infinity") then Ok (FInf neg)
  else if str_eqb lb (u "nan") then Ok FNaN
  else match parse_decimal body with
       | Some q => Ok (to_double (if neg then Qopp q else q))
       | None => Err ValueError
       end.

(** [float(num)] *)
Definition py_float (v : pyval) : res pyfloat :=
  match v with
  | VStr s => py_float_str s
  | VInt z => match to_double (inject_Z z) with
              | FFin y => Ok (FFin y)
              | _ => Err OverflowError  (* int too large to convert to float *)
              end
  | VFloat r => py_float_str r
  end.

(** The result of [exponent]: [inf], [-inf] or an [int]. *)
Inductive pyexp := EInf | ENegInf | EFin (e : Z).

(** [10**k] as [exponent] compares [n] with it: the [int] [10**k] for
    [k >= 0] (a float and an int compare exactly), the float
    [pow(10.0, k)] for [k < 0]. *)
Definition pow10f (k : Z) : Q :=
  if 0 <=? k then inject_Z (10 ^ k) else round_bin64 (pow10q k).

(** [while n < 10**e: e -= 1] *)
Fixpoint exp_down (fuel : nat) (n : Q) (e : Z) : Z :=
  match fuel with
  | O => e
  | S f => if Qlt_bool n (pow10f e) then exp_down f n (e - 1) else e
  end.

(** [while n >= 10**(e+1): e += 1] *)
Fixpoint exp_up (fuel : nat) (n : Q) (e : Z) : Z :=
  match fuel with
  | O => e
  | S f => if Qle_bool (pow10f (e + 1)) n then exp_up f n (e + 1) else e
  end.

(** For a finite double both loops end within [EXP_FUEL] rounds:
    [10.0**-324] is [0.0], and [10**309] exceeds every double. *)
Definition EXP_FUEL : nat := 1100.

Definition exponent (n : pyfloat) : pyexp :=
  match n with
  | FInf _ => EInf
  | FFin q =>
      let n := Qabs q in
      if Qeq_bool n 0 then ENegInf else EFin (exp_up EXP_FUEL n (exp_down EXP_FUEL n 0))
  | FNaN => EFin 0  (* every comparison with nan is false: no loop runs *)
  end.

(** [x * y] for doubles. *)
Definition fmul (x : pyfloat) (y : Q) : pyfloat :=
  match x with FFin a => to_double (Qmult a y) | _ => x end.

(** The right operand of [num*10**-(3*i)] as a double: the [int] [10**k]
    for [k >= 0] is converted by [float] ([OverflowError] past the largest
    double), [10**k] for [k < 0] is the float [pow(10.0, k)]. *)
Definition pow10_factor (k : Z) : res Q :=
  if 0 <=? k then
    match to_double (inject_Z (10 ^ k)) with FFin y => Ok y | _ => Err OverflowError end
  else Ok (round_bin64 (pow10q k)).

(** [round(x, nd)] for the [nd] in -1..1 the program uses: the exact value
    rounded half to even at [nd] decimals, read back as a double
    ([OverflowError] if that overflows); nans and infinities are returned
    as they are. *)
Definition py_round (x : pyfloat) (nd : Z) : res pyfloat :=
  match x with
  | FFin a =>
      match to_double (Qmult (inject_Z (round_he (Qmult a (pow10q nd)))) (pow10q (- nd))) with
      | FFin y => Ok (FFin y)
      | _ => Err OverflowError
      end
  | _ => Ok x
  end.

(** [int(x)] for a finite float: truncation towards zero. *)
Definition trunc (a : Q) : Z :=
  match Qcompare a 0 with Lt => - Qfloor (Qopp a) | _ => Qfloor a end.

(** [f'{int(x)}'] *)
Definition fmt_int (x : pyfloat) : res pystr :=
  match x with
  | FFin a => Ok (z2s (trunc a))
  | FInf _ => Err OverflowError
  | FNaN => Err ValueError
  end.

(** [f'{x:.1f}'] *)
Definition fmt_1f (x : pyfloat) : pystr :=
  match x with
  | FFin a =>
      let k := Z.abs (round_he (Qmult a (inject_Z 10))) in
      (match Qcompare a 0 with Lt => [45] | _ => [] end) ++ z2s (k / 10) ++ u "." ++ z2s (k mod 10)
  | FInf neg => (if neg then u "-" else []) ++ u "inf"
  | FNaN => u "nan"
  end.

Definition short_float (num : pyval) : res pystr :=
  let string := py_str num in
  match py_float num with
  | Err x => Err x
  | Ok num =>
      match exponent num with
      | EInf | ENegInf => Ok string
      | EFin e =>
          let i := e / 3 in
          let r := e mod 3 in
          match pow10_factor (- (3 * i)) with
          | Err x => Err x
          | Ok f =>
              match py_round (fmul num f) (1 - r) with
              | Err x => Err x
              | Ok num =>
                  match (if r >? 0 then fmt_int num else Ok (fmt_1f num)) with
                  | Err x => Err x
                  | Ok num =>
                      if i =? 0 then Ok num else
                      let prefixes := if i >? 0 then POS_PREFIXES else NEG_PREFIXES in
                      let i := Z.abs i - 1 in
                      if i <? Z.of_nat (List.length prefixes)
                      then Ok (num ++ [nth (Z.to_nat i) prefixes 0])
                      else Ok string
                  end
              end
          end
      end
  end.

(** [s.index(c)] for a character known to occur in [s]. *)
Fixpoint index_of (c : Z) (s : pystr) : Z :=
  match s with
  | [] => 0
  | x :: s' => if x =? c then 0 else 1 + index_of c s'
  end.

Definition adjust_float (num : pystr) : res pystr :=
  let string := num in
  match rev num with
  | [] => Err IndexError  (* num[-1] *)
  | last_char :: _ =>
      let num :=
        if existsb (Z.eqb last_char) NEG_PREFIXES then
          removelast num ++ u "e-" ++ z2s (3 * (index_of last_char NEG_PREFIXES + 1))
        else if existsb (Z.eqb last_char) POS_PREFIXES then
          removelast num ++ u "e+" ++ z2s (3 * (index_of last_char POS_PREFIXES + 1))
        else num in
      match short_float (VStr num) with
      | Ok num => Ok num
      | Err _ => Ok string
      end
  end.

(** ** Text: [normalize] and [adjust_str]

    The Unicode Character Database, as Python 3.11's [unicodedata] (Unicode
    14.0) has it, restricted to U+0000..U+017F (Basic Latin, Latin-1
    Supplement, Latin Extended-A), U+0300..U+036F (Combining Diacritical
    Marks) and the two combining marks U+1715 and U+302E: full canonical
    decompositions, nonzero canonical combining classes and full lowercase
    mappings.  The table is closed: decomposing or lowercasing a character
    of this range gives characters of this range.  Characters outside it
    are treated as having no decomposition, class 0, category other than
    Mn and no case mapping. *)

Definition decomp_table : list (Z * list Z) :=
  [(192, [65; 768]); (193, [65; 769]); (194, [65; 770]); (195, [65; 771]);
   (196, [65; 776]); (197, [65; 778]); (199, [67; 807]); (200, [69; 768]);
   (201, [69; 769]); (202, [69; 770]); (203, [69; 776]); (204, [73; 768]);
   (205, [73; 769]); (206, [73; 770]); (207, [73; 776]); (209, [78; 771]);
   (210, [79; 768]); (211, [79; 769]); (212, [79; 770]); (213, [79; 771]);
   (214, [79; 776]); (217, [85; 768]); (218, [85; 769]); (219, [85; 770]);
   (220, [85; 776]); (221, [89; 769]); (224, [97; 768]); (225, [97; 769]);
   (226, [97; 770]); (227, [97; 771]); (228, [97; 776]); (229, [97; 778]);
   (231, [99; 807]); (232, [101; 768]); (233, [101; 769]); (234, [101; 770]);
   (235, [101; 776]); (236, [105; 768]); (237, [105; 769]); (238, [105; 770]);
   (239, [105; 776]); (241, [110; 771]); (242, [111; 768]); (243, [111; 769]);
   (244, [111; 770]); (245, [111; 771]); (246, [111; 776]); (249, [117; 768]);
   (250, [117; 769]); (251, [117; 770]); (252, [117; 776]); (253, [121; 769]);
   (255, [121; 776]); (256, [65; 772]); (257, [97; 772]); (258, [65; 774]);
   (259, [97; 774]); (260, [65; 808]); (261, [97; 808]); (262, [67; 769]);
   (263, [99; 769]); (264, [67; 770]); (265, [99; 770]); (266, [67; 775]);
   (267, [99; 775]); (268, [67; 780]); (269, [99; 780]); (270, [68; 780]);
   (271, [100; 780]); (274, [69; 772]); (275, [101; 772]); (276, [69; 774]);
   (277, [101; 774]); (278, [69; 775]); (279, [101; 775]); (280, [69; 808]);
   (281, [101; 808]); (282, [69; 780]); (283, [101; 780]); (284, [71; 770]);
   (285, [103; 770]); (286, [71; 774]); (287, [103; 774]); (288, [71; 775]);
   (289, [103; 775]); (290, [71; 807]); (291, [103; 807]); (292, [72; 770]);
   (293, [104; 770]); (296, [73; 771]); (297, [105; 771]); (298, [73; 772]);
   (299, [105; 772]); (300, [73; 774]); (301, [105; 774]); (302, [73; 808]);
   (303, [105; 808]); (304, [73; 775]); (308, [74; 770]); (309, [106; 770]);
   (310, [75; 807]); (311, [107; 807]); (313, [76; 769]); (314, [108; 769]);
   (315, [76; 807]); (316, [108; 807]); (317, [76; 780]); (318, [108; 780]);
   (323, [78; 769]); (324, [110; 769]); (325, [78; 807]); (326, [110; 807]);
   (327, [78; 780]); (328, [110; 780]); (332, [79; 772]); (333, [111; 772]);
   (334, [79; 774]); (335, [111; 774]); (336, [79; 779]); (337, [111; 779]);
   (340, [82; 769]); (341, [114; 769]); (342, [82; 807]); (343, [114; 807]);
   (344, [82; 780]); (345, [114; 780]); (346, [83; 769]); (347, [115; 769]);
   (348, [83; 770]); (349, [115; 770]); (350, [83; 807]); (351, [115; 807]);
   (352, [83; 780]); (353, [115; 780]); (354, [84; 807]); (355, [116; 807]);
   (356, [84; 780]); (357, [116; 780]); (360, [85; 771]); (361, [117; 771]);
   (362, [85; 772]); (363, [117; 772]); (364, [85; 774]); (365, [117; 774]);
   (366, [85; 778]); (367, [117; 778]); (368, [85; 779]); (369, [117; 779]);
   (370, [85; 808]); (371, [117; 808]); (372, [87; 770]); (373, [119; 770]);
   (374, [89; 770]); (375, [121; 770]); (376, [89; 776]); (377, [90; 769]);
   (378, [122; 769]); (379, [90; 775]); (380, [122; 775]); (381, [90; 780]);
   (382, [122; 780]); (832, [768]); (833, [769]); (835, [787]); (836, [776;
   769])].

Definition ccc_table : list (Z * Z) :=
  [(768, 230); (769, 230); (770, 230); (771, 230); (772, 230); (773, 230);
   (774, 230); (775, 230); (776, 230); (777, 230); (778, 230); (779, 230);
   (780, 230); (781, 230); (782, 230); (783, 230); (784, 230); (785, 230);
   (786, 230); (787, 230); (788, 230); (789, 232); (790, 220); (791, 220);
   (792, 220); (793, 220); (794, 232); (795, 216); (796, 220); (797, 220);
   (798, 220); (799, 220); (800, 220); (801, 202); (802, 202); (803, 220);
   (804, 220); (805, 220); (806, 220); (807, 202); (808, 202); (809, 220);
   (810, 220); (811, 220); (812, 220); (813, 220); (814, 220); (815, 220);
   (816, 220); (817, 220); (818, 220); (819, 220); (820, 1); (821, 1); (822,
   1); (823, 1); (824, 1); (825, 220); (826, 220); (827, 220); (828, 220);
   (829, 230); (830, 230); (831, 230); (832, 230); (833, 230); (834, 230);
   (835, 230); (836, 230); (837, 240); (838, 230); (839, 220); (840, 220);
   (841, 220); (842, 230); (843, 230); (844, 230); (845, 220); (846, 220);
   (848, 230); (849, 230); (850, 230); (851, 220); (852, 220); (853, 220);
   (854, 220); (855, 230); (856, 232); (857, 220); (858, 220); (859, 230);
   (860, 233); (861, 234); (862, 234); (863, 233); (864, 234); (865, 234);
   (866, 233); (867, 230); (868, 230); (869, 230); (870, 230); (871, 230);
   (872, 230); (873, 230); (874, 230); (875, 230); (876, 230); (877, 230);
   (878, 230); (879, 230); (5909, 9); (12334, 224)].

Definition lower_table : list (Z * list Z) :=
  [(65, [97]); (66, [98]); (67, [99]); (68, [100]); (69, [101]); (70, [102]);
   (71, [103]); (72, [104]); (73, [105]); (74, [106]); (75, [107]); (76,
   [108]); (77, [109]); (78, [110]); (79, [111]); (80, [112]); (81, [113]);
   (82, [114]); (83, [115]); (84, [116]); (85, [117]); (86, [118]); (87,
   [119]); (88, [120]); (89, [121]); (90, [122]); (192, [224]); (193, [225]);
   (194, [226]); (195, [227]); (196, [228]); (197, [229]); (198, [230]); (199,
   [231]); (200, [232]); (201, [233]); (202, [234]); (203, [235]); (204,
   [236]); (205, [237]); (206, [238]); (207, [239]); (208, [240]); (209,
   [241]); (210, [242]); (211, [243]); (212, [244]); (213, [245]); (214,
   [246]); (216, [248]); (217, [249]); (218, [250]); (219, [251]); (220,
   [252]); (221, [253]); (222, [254]); (256, [257]); (258, [259]); (260,
   [261]); (262, [263]); (264, [265]); (266, [267]); (268, [269]); (270,
   [271]); (272, [273]); (274, [275]); (276, [277]); (278, [279]); (280,
   [281]); (282, [283]); (284, [285]); (286, [287]); (288, [289]); (290,
   [291]); (292, [293]); (294, [295]); (296, [297]); (298, [299]); (300,
   [301]); (302, [303]); (304, [105; 775]); (306, [307]); (308, [309]); (310,
   [311]); (313, [314]); (315, [316]); (317, [318]); (319, [320]); (321,
   [322]); (323, [324]); (325, [326]); (327, [328]); (330, [331]); (332,
   [333]); (334, [335]); (336, [337]); (338, [339]); (340, [341]); (342,
   [343]); (344, [345]); (346, [347]); (348, [349]); (350, [351]); (352,
   [353]); (354, [355]); (356, [357]); (358, [359]); (360, [361]); (362,
   [363]); (364, [365]); (366, [367]); (368, [369]); (370, [371]); (372,
   [373]); (374, [375]); (376, [255]); (377, [378]); (379, [380]); (381,
   [382])].

Fixpoint assoc {A} (c : Z) (t : list (Z * A)) : option A :=
  match t with
  | [] => None
  | (k, v) :: t' => if k =? c then Some v else assoc c t'
  end.

Definition decomp (c : Z) : list Z :=
  match assoc c decomp_table with Some l => l | None => [c] end.

Definition ccc (c : Z) : Z :=
  match assoc c ccc_table with Some n => n | None => 0 end.

(** [unicodedata.category(c) == 'Mn']: in the range of the table, exactly
    the Combining Diacritical Marks (U+1715 and U+302E are Mc). *)
Definition is_Mn (c : Z) : bool := (768 <=? c) && (c <=? 879).

Definition lower_char (c : Z) : list Z :=
  match assoc c lower_table with Some l => l | None => [c] end.

(** Canonical ordering: each maximal run of characters of nonzero class is
    sorted stably by class; [run] is the current run, already sorted. *)
Fixpoint insert_ccc (c : Z) (run : pystr) : pystr :=
  match run with
  | [] => [c]
  | x :: r => if ccc c <? ccc x then c :: run else x :: insert_ccc c r
  end.

Fixpoint reorder_go (s run : pystr) : pystr :=
  match s with
  | [] => run
  | c :: s' => if ccc c =? 0 then run ++ c :: reorder_go s' []
               else reorder_go s' (insert_ccc c run)
  end.

(** [unicodedata.normalize('NFD', s)] *)
Definition nfd (s : pystr) : pystr := reorder_go (flat_map decomp s) [].

Definition normalize (string : pystr) : pystr :=
  filter (fun c => negb (is_Mn c)) (nfd string).

(** [s.lower()] *)
Definition py_lower (s : pystr) : pystr := flat_map lower_char s.

Definition two_spaces : pystr := [32; 32].

(** [while '  ' in string: string = string.replace('  ', ' ')]; every
    iteration shortens the string, so its length bounds the iterations. *)
Fixpoint collapse_loop (fuel : nat) (string : pystr) : pystr :=
  match fuel with
  | O => string
  | S f => if contains two_spaces string
           then collapse_loop f (py_replace two_spaces [32] string)
           else string
  end.

Definition adjust_str (string : pystr) : pystr :=
  let string := py_lower (normalize string) in
  collapse_loop (S (List.length string)) string.

(** ** The data set *)

Record country := Country {
  name_common : pystr;
  name_official : pystr;
  capital : list pystr;
  flag : pystr;
  languages : list (pystr * pystr);
  cca2 : pystr;
  cca3 : pystr;
  region : pystr;
  subregion : pystr;
  borders : list pystr;
  area : pyval;  (* a JSON number: [VInt] or [VFloat] *)
  independent : bool
}.

(** The value of [country['area']]: an [int] is compared exactly, a
    [float] by its double value. *)
Definition area_value (c : country) : Q :=
  match area c with
  | VInt z => inject_Z z
  | v => match py_float v with Ok (FFin q) => q | _ => 0%Q end
  end.

(** [country[key]] for the keys the program reads. *)
Inductive jval :=
| JStr (s : pystr) | JList (l : list pystr) | JDict (d : list (pystr * pystr)) | JNum (v : pyval).

Definition get_field (c : country) (key : pystr) : res jval :=
  if str_eqb key (u "capital") then Ok (JList (capital c))
  else if str_eqb key (u "flag") then Ok (JStr (flag c))
  else if str_eqb key (u "languages") then Ok (JDict (languages c))
  else if str_eqb key (u "cca2") then Ok (JStr (cca2 c))
  else if str_eqb key (u "cca3") then Ok (JStr (cca3 c))
  else if str_eqb key (u "region") then Ok (JStr (region c))
  else if str_eqb key (u "subregion") then Ok (JStr (subregion c))
  else if str_eqb key (u "borders") then Ok (JList (borders c))
  else if str_eqb key (u "area") then Ok (JNum (area c))
  else Err KeyError.

(** [country[location]] for [location] in ['region', 'subregion']. *)
Definition loc_field (location : pystr) (c : country) : pystr :=
  if str_eqb location (u "region") then region c else subregion c.

(** [bool(data)] *)
Definition truthy (d : jval) : bool :=
  match d with
  | JStr s => negb (Nat.eqb (List.length s) 0)
  | JList l => negb (Nat.eqb (List.length l) 0)
  | JDict l => negb (Nat.eqb (List.length l) 0)
  | JNum (VInt z) => negb (z =? 0)
  | JNum v => match py_float v with Ok (FFin q) => negb (Qeq_bool q 0) | _ => true end
  end.

(** ** Printing *)

Definition ESC : Z := 27.
Definition red (s : pystr) : pystr := [ESC] ++ u "[1;31m" ++ s ++ [ESC] ++ u "[m".
Definition green (s : pystr) : pystr := [ESC] ++ u "[1;32m" ++ s ++ [ESC] ++ u "[m".

Definition INFO_MSG : pystr := u "
Info:
* Empty input ends the script.
* If options are given, the indices of options are accepted as answers.
* Multiple answers to a question separated by ',' are possible.
* Single-choice questions are denoted with parentheses.
* Multiple-choice questions are denoted with brackets.
* Country data source: `https://github.com/mledoze/countries`.
* Areas are rounded to two significant digits.
".

Definition topics : list pystr :=
  [u "capital"; u "flag"; u "languages"; u "two-letter code"; u "three-letter code";
   u "region"; u "subregion"; u "borders"; u "area"].

Definition limits : list pystr :=
  [u "independence"; u "location"; u "size"; u "island or not"].

Definition km2 : pystr := u "km" ++ [178].

Definition sizes : list pystr :=
  [u "big (> 10k " ++ km2 ++ u ")"; u "large (> 1M " ++ km2 ++ u ")";
   u "small (< 10k " ++ km2 ++ u ")"].

(** ** Limiting conditions (lines 211-246)

    The local variables [choice] and [condition] of [main] may still be
    unbound; they are tracked as options. *)

Definition condition_t := country -> bool.

Definition has_borders : condition_t := fun c => negb (Nat.eqb (List.length (borders c)) 0).

(** The condition of 'island or not' (lines 241-244): the test reads
    [choice], the variable of the independence filter; [island] is read
    from the user but not used. *)
Definition island_condition (choice : option pystr) (island : pystr) : res condition_t :=
  match choice with
  | None => Err UnboundLocalError
  | Some choice =>
      Ok (if str_eqb choice (u "yes") then (fun c => has_borders c)
          else (fun c => negb (has_borders c)))
  end.

Definition lift {A} (r : res A) : M A :=
  match r with Ok a => ret a | Err e => raise e end.

Definition limit_conditions (countries : list country) : M (list condition_t) :=
  condition_list <- choose_opts (u "limiting conditions") limits true ;;
  (* state: conditions, choice, condition *)
  st <- (if contains (u "independence") condition_list then
           choice <- choose_opts (u "independent") [u "yes"; u "no"] false ;;
           let condition : condition_t :=
             if str_eqb choice (u "yes") then (fun c => independent c)
             else (fun c => negb (independent c)) in
           ret ([condition], Some choice, Some condition)
         else ret ([], None, None)) ;;
  let '(conditions, choice, condition) := st in
  st <- (if contains (u "location") condition_list then
           location <- choose_opts (u "location") [u "region"; u "subregion"] false ;;
           let options := sorted_str (to_set (filter (fun s => negb (Nat.eqb (List.length s) 0))
                                                     (map (loc_field location) countries))) in
           locations <- choose_opts location options true ;;
           let locations := py_split (DELIM ++ u " ") locations in
           let condition : condition_t := fun c => mem (loc_field location c) locations in
           ret (conditions ++ [condition], Some condition)
         else ret (conditions, condition)) ;;
  let '(conditions, condition) := st in
  st <- (if contains (u "size") condition_list then
           size <- choose_opts (u "size") sizes false ;;
           let condition : option condition_t :=
             if is_prefix (u "big") size then Some (fun c => Qle_bool (10000 # 1) (area_value c))
             else if is_prefix (u "large") size then Some (fun c => Qle_bool (1000000 # 1) (area_value c))
             else if is_prefix (u "small") size then Some (fun c => negb (Qle_bool (10000 # 1) (area_value c)))
             else condition in
           match condition with
           | Some cond => ret (conditions ++ [cond])
           | None => raise UnboundLocalError
           end
         else ret conditions) ;;
  let conditions := st in
  if contains (u "island or not") condition_list then
    island <- choose_opts (u "island") [u "no"; u "yes"] false ;;
    condition <- lift (island_condition choice island) ;;
    ret (conditions ++ [condition])
  else ret conditions.

(** ** Per-topic behaviour (lines 248-283) *)

Record topic_cfg := TopicCfg {
  t_label : pystr;
  t_key : pystr;
  t_check : jval -> res bool;
  t_convert : jval -> res pystr;
  t_single_token : bool;
  t_conjunction : pystr;
  t_adjust : pystr -> res pystr
}.

(** [lambda data: data] for the string-valued keys. *)
Definition as_str (d : jval) : res pystr :=
  match d with JStr s => Ok s | _ => Err TypeError end.

(** [code2country[code]] *)
Definition code2country (countries : list country) (code : pystr) : res pystr :=
  match find (fun c => str_eqb (cca3 c) code) (rev countries) with
  | Some c => Ok (name_common c)
  | None => Err KeyError
  end.

Fixpoint map_res {A B} (f : A -> res B) (l : list A) : res (list B) :=
  match l with
  | [] => Ok []
  | x :: l' => match f x with
               | Err e => Err e
               | Ok y => match map_res f l' with Err e => Err e | Ok ys => Ok (y :: ys) end
               end
  end.

Definition topic_config (countries : list country) (topic : pystr) : topic_cfg :=
  let check_default := fun d => Ok (truthy d) in
  let adjust_default := fun d => Ok (adjust_str d) in
  if str_eqb topic (u "capital") then
    TopicCfg topic topic check_default
      (fun d => match d with JList l => Ok (arr2str l) | _ => Err TypeError end)
      false (u "with") adjust_default
  else if str_eqb topic (u "languages") then
    TopicCfg topic topic
      (fun d => match d with JDict l => Ok (Nat.ltb 0 (List.length l)) | _ => Err TypeError end)
      (fun d => match d with JDict l => Ok (arr2str (map snd l)) | _ => Err TypeError end)
      false (u "speaking") adjust_default
  else if str_eqb topic (u "two-letter code") then
    TopicCfg topic (u "cca2") check_default as_str true (u "abbreviated as") adjust_default
  else if str_eqb topic (u "three-letter code") then
    TopicCfg topic (u "cca3") check_default as_str true (u "abbreviated as") adjust_default
  else if str_eqb topic (u "region") then
    TopicCfg topic topic check_default as_str true (u "in") adjust_default
  else if str_eqb topic (u "subregion") then
    TopicCfg topic topic check_default as_str true (u "in") adjust_default
  else if str_eqb topic (u "borders") then
    TopicCfg topic topic (fun _ => Ok true)
      (fun d => match d with
                | JList l => match map_res (code2country countries) l with
                             | Ok names => Ok (arr2str names)
                             | Err e => Err e
                             end
                | _ => Err TypeError
                end)
      false (u "bordering") adjust_default
  else if str_eqb topic (u "area") then
    TopicCfg (u "area (in " ++ km2 ++ u ")") topic
      (fun d => match d with
                | JNum v => match py_float v with
                            | Ok (FFin q) => Ok (Qle_bool 0 q)
                            | Ok (FInf neg) => Ok (negb neg)
                            | Ok FNaN => Ok false
                            | Err x => Err x
                            end
                | _ => Err TypeError
                end)
      (fun d => match d with JNum v => short_float v | _ => Err TypeError end)
      true (u "with") adjust_float
  else TopicCfg topic topic check_default as_str true (u "with") adjust_default.

(** The loop of lines 289-295: [questions] and [answers] in data set order. *)
Fixpoint derive_pairs (cfg : topic_cfg) (name : pystr) (condition : condition_t)
    (ask_topic : bool) (cs : list country) (questions answers : list pystr)
    : res (list pystr * list pystr) :=
  match cs with
  | [] => Ok (questions, answers)
  | c :: cs' =>
      if condition c then
        match get_field c (t_key cfg) with
        | Err e => Err e
        | Ok data =>
            match t_check cfg data with
            | Err e => Err e
            | Ok false => derive_pairs cfg name condition ask_topic cs' questions answers
            | Ok true =>
                let nm := if str_eqb name (u "common") then name_common c else name_official c in
                match t_convert cfg data with
                | Err e => Err e
                | Ok data =>
                    let data := match data with [] => NONE | _ => data end in
                    if ask_topic
                    then derive_pairs cfg name condition ask_topic cs' (questions ++ [nm]) (answers ++ [data])
                    else derive_pairs cfg name condition ask_topic cs' (questions ++ [data]) (answers ++ [nm])
                end
            end
        end
      else derive_pairs cfg name condition ask_topic cs' questions answers
  end.

(** ** Option modes (lines 301-316) *)

(** The flags of the quiz; [options] is only read in exact mode and
    [multiple_tokens] only in free-text mode (elsewhere Python leaves them
    unbound; here they hold a placeholder). *)
Record opts_mode := OptsMode {
  no_opts : bool;
  var_opts : bool;
  multiple_answers : bool;
  options : list pystr;
  multiple_tokens : bool;
  adjust : pystr -> res pystr
}.

Definition opts_config (n_opts n_answers : Z) (answer_set : list pystr)
    (ask_topic single_token : bool) (adjust : pystr -> res pystr) : opts_mode :=
  if n_opts >? 0 then
    let '(var_opts, options, multiple_answers) :=
      if n_opts =? n_answers then (false, sorted_str answer_set, false)
      else (true, [], negb ask_topic) in
    OptsMode false var_opts multiple_answers options false (fun data => Ok data)
  else OptsMode true false false [] (ask_topic && negb single_token) adjust.

(** The other-values offered by the option-count prompt. *)
Definition n_opts_other (questions : list pystr) : list Z :=
  if Nat.eqb (List.length (to_set questions)) (List.length questions) then [0] else [].

(** ** The quiz loop (lines 318-354) *)

(** [questionnaire.remove((question, answer))] *)
Fixpoint remove_pair (p : pystr * pystr) (l : list (pystr * pystr)) : res (list (pystr * pystr)) :=
  match l with
  | [] => Err ValueError
  | x :: l' => if str_eqb (fst x) (fst p) && str_eqb (snd x) (snd p) then Ok l'
               else match remove_pair p l' with Ok r => Ok (x :: r) | Err e => Err e end
  end.

(** [for answer in sorted(answer): questionnaire.remove((question, answer))] *)
Fixpoint remove_answers (question : pystr) (answers : list pystr)
    (questionnaire : list (pystr * pystr)) : res (list (pystr * pystr)) :=
  match answers with
  | [] => Ok questionnaire
  | a :: rest => match remove_pair (question, a) questionnaire with
                 | Ok q => remove_answers question rest q
                 | Err e => Err e
                 end
  end.

Section Quiz.
Variables (questions answers : list pystr).
Variables (topic conjunction : pystr) (ask_topic : bool).
Variable md : opts_mode.
Variables (n_opts tot_n_questions : Z).

(** One iteration of [while len(options) < n_opts] with the drawn index
    [choice]: the options and the accepted answers afterwards. *)
Definition sample_step (question : pystr) (choice : nat)
    (options answer : list pystr) : list pystr * list pystr :=
  let option := nth choice answers [] in
  if negb (mem option options) then
    if negb (str_eqb question (nth choice questions [])) then (set_add option options, answer)
    else if multiple_answers md then (set_add option options, set_add option answer)
    else (options, answer)
  else (options, answer).

Fixpoint sample_loop (fuel : nat) (question : pystr) (options answer : list pystr)
    : M (list pystr * list pystr) :=
  match fuel with
  | O => raise OutOfFuel
  | S f =>
      if Z.of_nat (List.length options) <? n_opts then
        choice <- randint0 (Z.of_nat (List.length answers)) ;;
        let '(options, answer) := sample_step question (Z.to_nat choice) options answer in
        sample_loop f question options answer
      else ret (options, answer)
  end.

Fixpoint quiz_loop (fuel : nat) (questionnaire : list (pystr * pystr)) (n_mistakes : Z) : M Z :=
  match fuel with
  | O => raise OutOfFuel
  | S f =>
      match questionnaire with
      | [] => ret n_mistakes
      | _ =>
          idx <- randint0 (Z.of_nat (List.length questionnaire)) ;;
          let '(question, answer) := nth (Z.to_nat idx) questionnaire ([], []) in
          let answer := [answer] in
          let head := (if ask_topic then topic ++ u " of" else u "country " ++ conjunction)
                      ++ u " " ++ question in
          ca <- (if no_opts md then
                   choice <- choose head (multiple_tokens md) ;;
                   ret (choice, answer)
                 else
                   oa <- (if var_opts md then
                            fuel <- rand_fuel ;;
                            oa <- sample_loop fuel question answer answer ;;
                            let '(options, answer) := oa in
                            ret (sorted_str options, answer)
                          else ret (options md, answer)) ;;
                   let '(options, answer) := oa in
                   choice <- choose_opts head options (multiple_answers md) ;;
                   ret (choice, answer)) ;;
          let '(choice, answer) := ca in
          a1 <- lift (adjust md choice) ;;
          a2 <- lift (adjust md (arr2str answer)) ;;
          if str_eqb a1 a2 then
            questionnaire <- lift (remove_answers question (sorted_str answer) questionnaire) ;;
            let n_questions := tot_n_questions - Z.of_nat (List.length questionnaire) in
            print (green (u "Right!") ++ u " Progress: " ++ z2s n_questions ++ u " out of "
                   ++ z2s tot_n_questions ++ u " questions answered correctly.") ;;
            quiz_loop f questionnaire n_mistakes
          else
            print (red (u "Wrong!") ++ u " The right answer is " ++ arr2str answer ++ u ".") ;;
            quiz_loop f questionnaire (n_mistakes + 1)
      end
  end.
End Quiz.

(** Lines 296-362, from the derived pairs on. *)
Definition run_quiz (cfg : topic_cfg) (ask_topic : bool) (questions answers : list pystr) : M unit :=
  let answer_set := to_set answers in
  let n_answers := Z.of_nat (List.length answer_set) in
  if n_answers <? 2 then
    errmsg (u "Not enough possible answer options") ;; raise InputException
  else
    n_opts <- choose_int (u "number of options") 2 (Z.min MAX_N_OPTS n_answers)
                         (n_opts_other questions) ;;
    let md := opts_config n_opts n_answers answer_set ask_topic (t_single_token cfg) (t_adjust cfg) in
    let questionnaire := combine questions answers in
    let tot_n_questions := Z.of_nat (List.length questionnaire) in
    print (u "
Info: There are " ++ z2s tot_n_questions ++ u " questions. Good luck!") ;;
    fuel <- input_fuel ;;
    n_mistakes <- quiz_loop questions answers (t_label cfg) (t_conjunction cfg) ask_topic md
                            n_opts tot_n_questions fuel questionnaire 0 ;;
    let text := if n_mistakes =? 0 then u "did not make any mistakes"
                else if n_mistakes =? 1 then u "made " ++ red (z2s n_mistakes) ++ u " mistake"
                else u "made " ++ red (z2s n_mistakes) ++ u " mistakes" in
    print (u "
" ++ green (u "Congratulations on completing the questionnaire!") ++ u " You " ++ text ++ u ".").

Definition main_body (countries : list country) : M unit :=
  print INFO_MSG ;;
  topic <- choose_opts (u "topic") topics false ;;
  direction <- choose_opts (u "direction") [u "country -> " ++ topic; u "country <- " ++ topic] false ;;
  let ask_topic := contains (u " -> ") direction in
  name <- choose_opts (u "country names") [u "common"; u "official"] false ;;
  limit <- choose_opts (u "limit questions") [u "no"; u "yes"] false ;;
  conditions <- (if str_eqb limit (u "yes") then limit_conditions countries else ret []) ;;
  let condition : condition_t := fun c => forallb (fun cond => cond c) conditions in
  let cfg := topic_config countries topic in
  pairs <- lift (derive_pairs cfg name condition ask_topic countries [] []) ;;
  let '(questions, answers) := pairs in
  run_quiz cfg ask_topic questions answers.

(** [main()]: [except InputException: return]. *)
Definition is_input_exception (e : exn) : bool :=
  match e with InputException => true | _ => false end.

Definition main (countries : list country) : M unit :=
  try_except is_input_exception (main_body countries) (ret tt).

(** * Properties *)

(** A small data set: Aland (an island), Belgium and Cmr (bordering each
    other); Aland and Belgium in Europe, Cmr in Asia. *)
Definition sample_country (n reg : string) (bs : list string) (a : Z) (ind : bool) : country :=
  Country (u n) (u n) [u "Cap"] (u "F") [] (u "AA") (u n) (u reg) (u "Sub") (map u bs) (VInt a) ind.

Definition sample_countries : list country :=
  [sample_country "Aland" "Europe" [] 1580 true;
   sample_country "Belgium" "Europe" ["Cmr"] 30528 true;
   sample_country "Cmr" "Asia" ["Belgium"] 475442 true].

(** ** C1 *)

(** C1 (code_bug): a session ends with an uncaught exception in three
    ways.  (1) Topic region, country <- region, common names, no limits,
    and "abc" at the option-count prompt: [int()] fails, the error is
    printed, and then [lower <= choice] compares an [int] with a [str]
    and raises [TypeError].  (2) The same session with 2 options:
    round 1 draws (Europe, Aland), the distractor Cmr, and the user picks
    Aland; round 2 draws (Europe, Belgium) and the sampled value Aland of
    the same question is folded into the accepted set; the user picks both,
    and [questionnaire.remove((Europe, Aland))] raises [ValueError], the
    pair being gone already.  (3) Limiting by 'island or not' alone raises
    [UnboundLocalError] on [choice]. *)
Theorem main_raises_uncaught :
  fst (main sample_countries (World (map u ["6"; "2"; "1"; "1"; "abc"]) [] [])) = Err TypeError
  /\ fst (main sample_countries
            (World (map u ["6"; "2"; "1"; "1"; "2"; "1"; "1,2"]) [0; 2; 0; 0] []))
     = Err ValueError
  /\ fst (main sample_countries (World (map u ["6"; "2"; "1"; "2"; "4"; "2"]) [] []))
     = Err UnboundLocalError.
Proof. split; [|split]; vm_compute; reflexivity. Qed.

(** ** C2 *)

(** C2 (code_bug): the 'island or not' condition tests the variable
    [choice] of the independence filter, whatever the island answer is.
    With independence answered "yes", the condition is "has a non-empty
    borders list" for the island answer "yes" too; on the sample data,
    limiting by independence = yes and island = yes keeps Belgium and Cmr
    and drops the island Aland. *)
Theorem island_condition_ignores_island_answer :
  (forall (island : pystr) (c : country),
      exists p, island_condition (Some (u "yes")) island = Ok p
                /\ p c = negb (Nat.eqb (List.length (borders c)) 0))
  /\ (exists conds w,
        limit_conditions sample_countries (World (map u ["1,4"; "1"; "2"]) [] []) = (Ok conds, w)
        /\ map (fun c => forallb (fun cond => cond c) conds) sample_countries = [false; true; true]).
Proof.
  split.
  - intros island c. eexists. split; reflexivity.
  - do 2 eexists. split; [vm_compute; reflexivity | vm_compute; reflexivity].
Qed.

(** ** C3 *)

(** The values the option-count prompt accepts, as the code decides:
    2..min(8, n) always, 0 only when the question labels are distinct. *)
Definition n_opts_accepted (questions : list pystr) (n_answers k : Z) : bool :=
  ((2 <=? k) && (k <=? Z.min MAX_N_OPTS n_answers))
  || ((k =? 0) && Nat.eqb (List.length (to_set questions)) (List.length questions)).

(** C3 (counterexample): with the labels Europe, Europe, Asia (three
    distinct answers), the prompt rejects 0 and then accepts 3, the full
    unique-answer count, although the labels are not distinct. *)
Lemma n_opts_prompt_counterexample :
  let questions := [u "Europe"; u "Europe"; u "Asia"] in
  fst (choose_int (u "number of options") 2 (Z.min MAX_N_OPTS 3) (n_opts_other questions)
                  (World [u "0"; u "3"] [] []))
  = Ok 3.
Proof. vm_compute. reflexivity. Qed.

(** C3 (amended): on a line holding the integer [k], the option-count
    prompt returns [k] when [k] is in 2..min(8, n) or when [k = 0] and the
    question labels are distinct; otherwise it prints the range and asks
    again.  A positive count selects exact mode (no variable options, the
    sorted unique answers as the one option list, no multi-select) exactly
    when it equals the unique-answer count [n], a value the prompt accepts
    exactly when [n <= 8]. *)
Theorem n_opts_prompt_accepts (questions : list pystr) (n_answers k : Z) (l : pystr)
    (rest : list pystr) (rs : list Z) (out : list pystr) (f : nat) (choices : pystr)
    (Hl : strip l <> []) (Hk : py_int (strip l) = Some k) (Hn : 2 <= n_answers) :
  choose_int_loop (S f) choices 2 (Z.min MAX_N_OPTS n_answers) (n_opts_other questions)
                  (World (l :: rest) rs out)
  = (if n_opts_accepted questions n_answers k then (Ok k, World rest rs out)
     else choose_int_loop f choices 2 (Z.min MAX_N_OPTS n_answers) (n_opts_other questions)
            (World rest rs (out ++ [u "Error: " ++ (u "The integer should be one of " ++ choices) ++ u "."])))
  /\ (forall n_opts answer_set ask_topic single_token adj, 0 < n_opts ->
        let md := opts_config n_opts n_answers answer_set ask_topic single_token adj in
        (var_opts md = false <-> n_opts = n_answers)
        /\ (n_opts = n_answers -> options md = sorted_str answer_set /\ multiple_answers md = false))
  /\ n_opts_accepted questions n_answers n_answers = (n_answers <=? MAX_N_OPTS).
Proof.
  split; [|split].
  - cbn [choose_int_loop]. unfold read_input_line, bind, input, ret, errmsg, print. cbn.
    destruct (strip l) as [|c s] eqn:E; [congruence|]. rewrite Hk.
    unfold n_opts_accepted, n_opts_other.
    destruct ((2 <=? k) && (k <=? Z.min MAX_N_OPTS n_answers)); cbn; [reflexivity|].
    destruct (Nat.eqb (List.length (to_set questions)) (List.length questions)); cbn;
      [destruct (k =? 0); cbn; reflexivity | rewrite andb_false_r; reflexivity].
  - intros n_opts answer_set ask_topic single_token adj Hpos. unfold opts_config.
    replace (n_opts >? 0) with true by (symmetry; apply Z.gtb_lt; lia).
    destruct (n_opts =? n_answers) eqn:E; cbn.
    + apply Z.eqb_eq in E. repeat split; auto.
    + apply Z.eqb_neq in E. split; [split; congruence | intro; contradiction].
  - unfold n_opts_accepted, MAX_N_OPTS.
    replace (n_answers =? 0) with false by (symmetry; apply Z.eqb_neq; lia).
    rewrite andb_false_l, orb_false_r.
    replace (2 <=? n_answers) with true by (symmetry; apply Z.leb_le; lia).
    cbn. destruct (Z.leb_spec n_answers 8).
    + apply Z.leb_le. lia.
    + apply Z.leb_gt. lia.
Qed.

Lemma n_opts_prompt_accepts_witness :
  strip (u "3") <> [] /\ py_int (strip (u "3")) = Some 3 /\ 2 <= 3
  /\ fst (choose_int_loop 2 (u "2..3") 2 (Z.min MAX_N_OPTS 3) (n_opts_other [u "a"; u "b"; u "c"])
                          (World [u "3"] [] [])) = Ok 3.
Proof.
  assert (Hl : strip (u "3") <> []) by discriminate.
  assert (Hk : py_int (strip (u "3")) = Some 3) by reflexivity.
  split; [exact Hl | split; [exact Hk | split; [lia |]]].
  destruct (n_opts_prompt_accepts [u "a"; u "b"; u "c"] 3 3 (u "3") [] [] [] 1 (u "2..3")
              Hl Hk ltac:(lia)) as [H _].
  rewrite H. reflexivity.
Defined.

(** ** C5 *)

Definition digit_char (c : Z) : Prop := 48 <= c <= 57.

Lemma digits_rev_digits fuel n : 0 <= n -> Forall digit_char (digits_rev fuel n).
Proof.
  revert n; induction fuel as [|fuel IH]; intros n Hn; cbn [digits_rev]; [constructor|].
  destruct (n <? 10) eqn:E.
  - apply Z.ltb_lt in E. constructor; [unfold digit_char; lia | constructor].
  - constructor.
    + pose proof (Z.mod_pos_bound n 10 ltac:(lia)). unfold digit_char; lia.
    + apply IH. apply Z.div_pos; lia.
Qed.

Lemma nat_to_s_digits n : 0 <= n -> nat_to_s n <> [] /\ Forall digit_char (nat_to_s n).
Proof.
  intros Hn. unfold nat_to_s. split.
  - cbn [digits_rev]. destruct (n <? 10); cbn; [discriminate|].
    intro H. apply app_eq_nil in H. destruct H as [_ H]. discriminate.
  - apply Forall_rev. now apply digits_rev_digits.
Qed.

(** ** Rounding to binary64 *)

Lemma pow2q_pos (z : Z) : (0 < pow2q z)%Q.
Proof. apply Qpower_0_lt. reflexivity. Qed.

Lemma pow2q_add (a b : Z) : (pow2q (a + b) == pow2q a * pow2q b)%Q.
Proof. unfold pow2q. apply Qpower_plus. intro H. discriminate H. Qed.

Lemma pow2q_le_mono (a b : Z) : a <= b -> (pow2q a <= pow2q b)%Q.
Proof. intros H. apply Qpower_le_compat_l; [lia | discriminate]. Qed.

Lemma pow2q_Z (z : Z) : 0 <= z -> (pow2q z == inject_Z (2 ^ z))%Q.
Proof. intros H. unfold pow2q. symmetry. apply Zpower_Qpower. lia. Qed.

Lemma qlog2_lo (a : Q) : (0 < a)%Q -> (pow2q (qlog2 a) <= a)%Q.
Proof.
  intros Ha. unfold qlog2.
  set (t := Z.log2 (Qnum a) - Z.log2 (Zpos (Qden a))).
  unfold Qlt_bool. destruct (a ?= pow2q t)%Q eqn:Ec.
  - apply Qeq_alt in Ec. rewrite Ec. apply Qle_refl.
  - destruct a as [n d]. unfold t in *. cbn [Qnum Qden] in *.
    assert (Hn : 0 < n) by (unfold Qlt in Ha; cbn in Ha; lia).
    pose proof (Z.log2_spec n Hn) as [Hn1 Hn2].
    pose proof (Z.log2_spec (Zpos d) eq_refl) as [Hd1 Hd2].
    rewrite <- Z.add_1_r in Hn2, Hd2.
    assert (Hln : 0 <= Z.log2 n) by apply Z.log2_nonneg.
    assert (Hld : 0 <= Z.log2 (Zpos d)) by apply Z.log2_nonneg.
    set (ln := Z.log2 n) in *. set (ld := Z.log2 (Zpos d)) in *.
    assert (E : (pow2q (ln - ld - 1) * pow2q (ld + 1) == inject_Z (2 ^ ln))%Q).
    { rewrite <- pow2q_add. replace (ln - ld - 1 + (ld + 1)) with ln by lia. apply pow2q_Z; lia. }
    rewrite <- (Qmult_le_r _ _ (pow2q (ld + 1))) by apply pow2q_pos.
    rewrite E. rewrite (pow2q_Z (ld + 1)) by lia.
    unfold Qle, Qmult, inject_Z; cbn [Qnum Qden].
    assert (0 < 2 ^ ln) by (apply Z.pow_pos_nonneg; lia).
    nia.
  - apply Qlt_le_weak. apply Qgt_alt. exact Ec.
Qed.

Lemma round_he_err (y : Q) : (Qabs (y - inject_Z (round_he y)) <= 1 # 2)%Q.
Proof.
  unfold round_he.
  pose proof (Qfloor_le y) as H1. pose proof (Qlt_floor y) as H2.
  set (f := Qfloor y) in *.
  rewrite inject_Z_plus in H2.
  apply Qabs_Qle_condition.
  destruct (Qcompare_spec (y - inject_Z f) (1 # 2)) as [E|E|E].
  - destruct (Z.even f); [|rewrite inject_Z_plus]; change (inject_Z 1) with 1%Q in *; split; lra.
  - split; lra.
  - rewrite inject_Z_plus. change (inject_Z 1) with 1%Q in *. split; lra.
Qed.

Lemma round_he_near (y : Q) (z : Z) : (Qabs (y - inject_Z z) < 1 # 2)%Q -> round_he y = z.
Proof.
  intros H. pose proof (round_he_err y) as H'. set (k := round_he y) in *.
  apply Qabs_Qlt_condition in H. apply Qabs_Qle_condition in H'.
  assert (H1 : (inject_Z k < inject_Z (z + 1))%Q)
    by (rewrite inject_Z_plus; change (inject_Z 1) with 1%Q; lra).
  assert (H2 : (inject_Z z < inject_Z (k + 1))%Q)
    by (rewrite inject_Z_plus; change (inject_Z 1) with 1%Q; lra).
  rewrite <- Zlt_Qlt in H1, H2. lia.
Qed.

Lemma Qabs_pos_neq (x : Q) : Qeq_bool x 0 = false -> (0 < Qabs x)%Q.
Proof.
  intros Ex. apply Qeq_bool_neq in Ex.
  destruct (Qlt_le_dec 0 (Qabs x)) as [H|H]; [exact H|].
  exfalso. apply Ex. apply Qabs_Qle_condition in H. apply Qle_antisym; lra.
Qed.

Lemma rb_err (x : Q) :
  (Qabs (round_bin64 x - x) <= Qabs x * pow2q (-53) + pow2q (-1075))%Q.
Proof.
  assert (H0 : (0 <= pow2q (-1075))%Q) by (apply Qlt_le_weak, pow2q_pos).
  assert (H1 : (0 <= Qabs x * pow2q (-53))%Q)
    by (apply Qmult_le_0_compat; [apply Qabs_nonneg | apply Qlt_le_weak, pow2q_pos]).
  unfold round_bin64. destruct (Qeq_bool x 0) eqn:Ex.
  - apply Qeq_bool_iff in Ex. rewrite Ex. change (Qabs (0 - 0)) with 0%Q.
    rewrite Ex in H1. lra.
  - pose proof (Qabs_pos_neq x Ex) as Hpos.
    destruct (Z.max_spec (qlog2 (Qabs x)) (-1022)) as [[Hl HE] | [Hl HE]]; rewrite HE;
    [set (E := -1022) | set (E := qlog2 (Qabs x))];
    set (ulp := pow2q (E - 52));
    assert (Hu : (0 < ulp)%Q) by apply pow2q_pos;
    set (y := (x / ulp)%Q);
    assert (Hx : (x == y * ulp)%Q) by (unfold y; field; intro Hz; rewrite Hz in Hu; discriminate Hu);
    pose proof (round_he_err y) as Herr;
    assert (Hd : (inject_Z (round_he y) * ulp - x == - ((y - inject_Z (round_he y)) * ulp))%Q)
      by (rewrite Hx at 1; ring);
    rewrite Hd, Qabs_opp, Qabs_Qmult, (Qabs_pos ulp) by lra;
    apply Qle_trans with ((1 # 2) * ulp)%Q;
    try (apply Qmult_le_compat_r; lra);
    assert (Hh : ((1 # 2) * ulp == pow2q (E - 53))%Q)
      by (unfold ulp; replace (E - 52) with ((E - 53) + 1) by lia;
          rewrite pow2q_add; change (pow2q 1) with (inject_Z 2); ring);
    rewrite Hh.
    + replace (E - 53) with (-1075) by reflexivity. lra.
    + replace (E - 53) with (E + -53) by lia. rewrite pow2q_add.
      pose proof (qlog2_lo _ Hpos) as Hlo. fold E in Hlo.
      assert (Qabs x * pow2q (-53) >= pow2q E * pow2q (-53))%Q.
      { apply Qmult_le_compat_r; [exact Hlo | apply Qlt_le_weak, pow2q_pos]. }
      lra.
Qed.

Lemma rb_int (x : Q) (z : Z) : (x == inject_Z z)%Q -> Z.abs z < 2 ^ 53 -> (round_bin64 x == x)%Q.
Proof.
  intros Hx Hz. unfold round_bin64. destruct (Qeq_bool x 0) eqn:Ex.
  - apply Qeq_bool_iff in Ex. rewrite Ex. reflexivity.
  - pose proof (Qabs_pos_neq x Ex) as Hpos.
    pose proof (qlog2_lo _ Hpos) as Hlo.
    set (L := qlog2 (Qabs x)) in *.
    assert (HL : L < 53).
    { destruct (Z.ltb_spec L 53) as [|HL]; [assumption|exfalso].
      assert (H53 : (pow2q 53 <= Qabs x)%Q)
        by (apply Qle_trans with (pow2q L); [apply pow2q_le_mono; lia | exact Hlo]).
      rewrite Hx in H53. rewrite pow2q_Z in H53 by lia.
      change (Qabs (inject_Z z)) with (inject_Z (Z.abs z)) in H53. rewrite <- Zle_Qle in H53. lia. }
    set (s := Z.max L (-1022) - 52).
    assert (Hs : s <= 0) by (unfold s; lia).
    assert (Hq : (x / pow2q s == inject_Z (z * 2 ^ (- s)))%Q).
    { rewrite inject_Z_mult, <- pow2q_Z by lia. rewrite Hx.
      unfold Qdiv. apply Qmult_comp; [reflexivity|]. unfold pow2q. rewrite Qpower_opp. reflexivity. }
    rewrite (round_he_near _ (z * 2 ^ (- s))).
    2: { rewrite Hq. unfold Qminus. rewrite Qplus_opp_r. reflexivity. }
    rewrite <- Hq. field. intro H0. pose proof (pow2q_pos s) as Hp. rewrite H0 in Hp. discriminate Hp.
Qed.

Lemma trunc_int (a : Q) (w : Z) : (a == inject_Z w)%Q -> trunc a = w.
Proof.
  intros H. unfold trunc.
  assert (H' : (- a == inject_Z (- w))%Q) by (rewrite H, inject_Z_opp; reflexivity).
  rewrite (Qfloor_comp _ _ H), (Qfloor_comp _ _ H'), !Qfloor_Z.
  destruct (a ?= 0)%Q; lia.
Qed.

Lemma to_double_fin (x y : Q) : to_double x = FFin y -> y = round_bin64 x /\ (Qabs y < pow2q 1024)%Q.
Proof.
  unfold to_double. destruct (Qle_bool (pow2q 1024) (Qabs (round_bin64 x))) eqn:E; [discriminate|].
  intros H. injection H as <-. split; [reflexivity|].
  apply Qnot_le_lt. intro H. apply Qle_bool_iff in H. congruence.
Qed.

Lemma to_double_small (x : Q) : (Qabs (round_bin64 x) < pow2q 1024)%Q -> to_double x = FFin (round_bin64 x).
Proof.
  intros H. unfold to_double. destruct (Qle_bool (pow2q 1024) (Qabs (round_bin64 x))) eqn:E; [|reflexivity].
  apply Qle_bool_iff in E. exfalso. apply (Qlt_not_le _ _ H E).
Qed.

(** The magnitude bound the rounding error gives. *)
Lemma rb_abs (x : Q) : (Qabs (round_bin64 x) <= Qabs x * (1 + pow2q (-53)) + pow2q (-1075))%Q.
Proof.
  pose proof (rb_err x) as H. pose proof (Qabs_triangle (round_bin64 x - x) x) as T.
  assert (E : (round_bin64 x - x + x == round_bin64 x)%Q) by ring. rewrite E in T. lra.
Qed.

Lemma Qlt_bool_iff (a b : Q) : Qlt_bool a b = true <-> (a < b)%Q.
Proof.
  unfold Qlt_bool. destruct (Qcompare_spec a b) as [H|H|H]; split; intro; try easy.
  - rewrite H in *. exfalso. apply (Qlt_irrefl b). assumption.
  - exfalso. apply (Qlt_irrefl a). apply Qlt_trans with b; assumption.
Qed.

Lemma Qlt_bool_false (a b : Q) : Qlt_bool a b = false -> (b <= a)%Q.
Proof.
  intros H. apply Qnot_lt_le. intro H'. apply Qlt_bool_iff in H'. congruence.
Qed.

Lemma exp_down_spec (j fuel : nat) (n : Q) (e : Z) :
  (j < fuel)%nat -> (pow10f (e - Z.of_nat j) <= n)%Q ->
  (pow10f (exp_down fuel n e) <= n)%Q /\ e - Z.of_nat j <= exp_down fuel n e <= e.
Proof.
  revert fuel e. induction j as [|j IH]; intros fuel e Hj Hp; destruct fuel as [|f]; try lia;
    cbn [exp_down]; destruct (Qlt_bool n (pow10f e)) eqn:E.
  - apply Qlt_bool_iff in E. rewrite Z.sub_0_r in Hp. exfalso. apply (Qlt_not_le _ _ E Hp).
  - apply Qlt_bool_false in E. split; [exact E | lia].
  - destruct (IH f (e - 1)) as [H1 H2]; [lia | replace (e - 1 - Z.of_nat j) with (e - Z.of_nat (S j)) by lia; exact Hp |].
    split; [exact H1 | lia].
  - apply Qlt_bool_false in E. split; [exact E | lia].
Qed.

Lemma exp_up_spec (j fuel : nat) (n : Q) (e : Z) :
  (j < fuel)%nat -> (pow10f e <= n)%Q -> (n < pow10f (e + Z.of_nat j + 1))%Q ->
  (pow10f (exp_up fuel n e) <= n < pow10f (exp_up fuel n e + 1))%Q /\
  e <= exp_up fuel n e <= e + Z.of_nat j.
Proof.
  revert fuel e. induction j as [|j IH]; intros fuel e Hj Hp Hn; destruct fuel as [|f]; try lia;
    cbn [exp_up]; destruct (Qle_bool (pow10f (e + 1)) n) eqn:E.
  - apply Qle_bool_iff in E. rewrite Z.add_0_r in Hn. exfalso. apply (Qlt_not_le _ _ Hn E).
  - split; [split; [exact Hp|] | lia].
    apply Qnot_le_lt. intro H. apply Qle_bool_iff in H. congruence.
  - apply Qle_bool_iff in E.
    destruct (IH f (e + 1)) as [H1 H2]; [lia | exact E | |].
    + replace (e + 1 + Z.of_nat j + 1) with (e + Z.of_nat (S j) + 1) by lia. exact Hn.
    + split; [exact H1 | lia].
  - split; [split; [exact Hp|] | lia].
    apply Qnot_le_lt. intro H. apply Qle_bool_iff in H. congruence.
Qed.

Lemma pow10f_low : (pow10f (-324) == 0)%Q.
Proof. vm_compute. reflexivity. Qed.

Lemma pow10f_high : (pow2q 1024 < pow10f 309)%Q.
Proof. vm_compute. reflexivity. Qed.

(** [exponent] of a finite nonzero double: the [e] with
    [10**e <= |n| < 10**(e+1)], comparisons done as the program does them. *)
Lemma exponent_spec (q : Q) :
  Qeq_bool q 0 = false -> (Qabs q < pow2q 1024)%Q ->
  exists e, exponent (FFin q) = EFin e /\
    (pow10f e <= Qabs q < pow10f (e + 1))%Q /\ -324 <= e <= 308.
Proof.
  intros Hq Hb. pose proof (Qabs_pos_neq q Hq) as Hpos.
  assert (Hq' : Qeq_bool (Qabs q) 0 = false).
  { apply not_true_iff_false. intro H. apply Qeq_bool_iff in H. rewrite H in Hpos. discriminate Hpos. }
  unfold exponent. rewrite Hq'.
  set (n := Qabs q) in *.
  destruct (exp_down_spec 324 EXP_FUEL n 0) as [D1 D2].
  { unfold EXP_FUEL. lia. }
  { rewrite pow10f_low. lra. }
  set (d := exp_down EXP_FUEL n 0) in *.
  destruct (exp_up_spec (Z.to_nat (308 - d)) EXP_FUEL n d) as [U1 U2].
  { unfold EXP_FUEL. lia. }
  { exact D1. }
  { replace (d + Z.of_nat (Z.to_nat (308 - d)) + 1) with 309 by lia.
    apply Qlt_trans with (pow2q 1024); [exact Hb | exact pow10f_high]. }
  eexists. split; [reflexivity|]. split; [exact U1 | lia].
Qed.

Lemma py_float_str_fin (s : pystr) (q : Q) : py_float_str s = Ok (FFin q) -> (Qabs q < pow2q 1024)%Q.
Proof.
  unfold py_float_str.
  destruct (match strip s with 43 :: r => (false, r) | 45 :: r => (true, r) | _ => (false, strip s) end)
    as [neg body].
  destruct (_ || _); [discriminate|].
  destruct (str_eqb _ _); [discriminate|].
  destruct (parse_decimal body); [|discriminate].
  intros H. injection H as H. apply (to_double_fin _ _ H).
Qed.

Lemma py_float_fin (v : pyval) (q : Q) : py_float v = Ok (FFin q) -> (Qabs q < pow2q 1024)%Q.
Proof.
  destruct v as [s|z|r]; cbn [py_float].
  - apply py_float_str_fin.
  - destruct (to_double (inject_Z z)) eqn:E; try discriminate.
    intros H. injection H as <-. apply (to_double_fin _ _ E).
  - apply py_float_str_fin.
Qed.

Lemma to_double_bounded (x : Q) : (Qabs x < pow2q 50)%Q -> to_double x = FFin (round_bin64 x).
Proof.
  intros Hx. apply to_double_small.
  pose proof (rb_abs x) as H.
  assert (C1 : (0 <= pow2q (-53) <= 1)%Q) by (split; vm_compute; discriminate).
  assert (C2 : (pow2q (-1075) <= 1)%Q) by (vm_compute; discriminate).
  assert (C3 : (2 * pow2q 50 + 1 < pow2q 1024)%Q) by (vm_compute; reflexivity).
  assert (H1 : (Qabs x * (1 + pow2q (-53)) <= Qabs x * 2)%Q)
    by (rewrite !(Qmult_comm (Qabs x)); apply Qmult_le_compat_r; [lra | apply Qabs_nonneg]).
  pose proof (Qabs_nonneg x). lra.
Qed.

Lemma fmt_1f_tenths (k : Z) : Z.abs k < 2 ^ 50 ->
  fmt_1f (FFin (round_bin64 (inject_Z k * pow10q (-1)))) =
  (if k <? 0 then u "-" else []) ++ z2s (Z.abs k / 10) ++ u "." ++ z2s (Z.abs k mod 10).
Proof.
  intros Hk.
  set (w := (inject_Z k * pow10q (-1))%Q). set (a := round_bin64 w).
  pose proof (rb_err w) as Hr. fold a in Hr.
  assert (Hw : (w == inject_Z k * (1 # 10))%Q) by reflexivity.
  assert (P53 : (pow2q (-53) == 1 # 9007199254740992)%Q) by reflexivity.
  assert (P1075 : (0 <= pow2q (-1075) <= 1 # 1000)%Q) by (split; vm_compute; discriminate).
  assert (Hk' : (inject_Z (Z.abs k) < 1125899906842624 # 1)%Q)
    by (change (1125899906842624 # 1)%Q with (inject_Z (2 ^ 50)); rewrite <- Zlt_Qlt; exact Hk).
  assert (Hwa : (Qabs w == inject_Z (Z.abs k) * (1 # 10))%Q)
    by (rewrite Hw, Qabs_Qmult; reflexivity).
  rewrite P53, Hwa in Hr.
  assert (Hnear : (Qabs (a * inject_Z 10 - inject_Z k) < 1 # 2)%Q).
  { assert (E : (a * inject_Z 10 - inject_Z k == (a - w) * (10 # 1))%Q)
      by (rewrite Hw; change (inject_Z 10) with (10 # 1)%Q; ring).
    rewrite E, Qabs_Qmult. change (Qabs (10 # 1)) with (10 # 1)%Q.
    pose proof (Qabs_nonneg (inject_Z k)). lra. }
  apply Qabs_Qlt_condition in Hnear.
  unfold fmt_1f. fold a. rewrite (round_he_near _ k).
  2: { apply Qabs_Qlt_condition. exact Hnear. }
  f_equal.
  destruct (Z.ltb_spec k 0) as [Hn|Hn].
  - assert (H1 : (inject_Z k <= -1 # 1)%Q) by (change (-1 # 1)%Q with (inject_Z (-1)); rewrite <- Zle_Qle; lia).
    destruct (Qcompare_spec a 0) as [E|E|E]; [| reflexivity |];
      exfalso; change (inject_Z 10) with (10 # 1)%Q in Hnear; lra.
  - destruct (Z.eq_dec k 0) as [->|Hk0].
    + assert (Ha : a = 0%Q) by (unfold a, w, round_bin64; reflexivity).
      rewrite Ha. reflexivity.
    + assert (H1 : (1 # 1 <= inject_Z k)%Q) by (change (1 # 1)%Q with (inject_Z 1); rewrite <- Zle_Qle; lia).
      destruct (Qcompare_spec a 0) as [E|E|E]; [| | reflexivity];
        exfalso; change (inject_Z 10) with (10 # 1)%Q in Hnear; lra.
Qed.

Lemma fmt_int_scaled (k m : Z) : 0 <= m -> Z.abs (k * 10 ^ m) < 2 ^ 50 ->
  (match to_double (inject_Z k * pow10q m) with FFin y => Ok (FFin y) | _ => Err OverflowError end)
    = Ok (FFin (round_bin64 (inject_Z k * pow10q m))) /\
  trunc (round_bin64 (inject_Z k * pow10q m)) = k * 10 ^ m.
Proof.
  intros Hm Hk.
  assert (Hx : (inject_Z k * pow10q m == inject_Z (k * 10 ^ m))%Q)
    by (rewrite inject_Z_mult; unfold pow10q; rewrite Zpower_Qpower by exact Hm; reflexivity).
  rewrite to_double_bounded.
  2: { rewrite Hx, pow2q_Z by lia. change (Qabs (inject_Z (k * 10 ^ m))) with (inject_Z (Z.abs (k * 10 ^ m))).
       rewrite <- Zlt_Qlt. exact Hk. }
  split; [reflexivity|].
  apply trunc_int. rewrite (rb_int _ (k * 10 ^ m) Hx) by lia. exact Hx.
Qed.

(** The magnitude bounds behind [short_float] at the exponents of the
    SI prefixes, checked at each of them. *)
Definition sf_bound_ok (e : Z) : bool :=
  match pow10_factor (- (3 * (e / 3))) with
  | Ok f =>
      Qlt_bool (pow10f (e + 1) * Qabs f) (pow2q 50) &&
      Qlt_bool (((pow10f (e + 1) * Qabs f * (1 + pow2q (-53)) + pow2q (-1075))
                 * pow10q (1 - e mod 3) + 1) * 10) (pow2q 50)
  | Err _ => false
  end.

Lemma sf_bound_table (e : Z) : -30 <= e <= 32 -> sf_bound_ok e = true.
Proof.
  intros He.
  assert (T : forallb (fun m => sf_bound_ok (-30 + Z.of_nat m)) (seq 0 63) = true)
    by (vm_compute; reflexivity).
  rewrite forallb_forall in T. specialize (T (Z.to_nat (e + 30))).
  rewrite Z2Nat.id in T by lia. replace (-30 + (e + 30)) with e in T by lia.
  apply T. apply in_seq. lia.
Qed.

(** C5 (counterexample): 1000 rounds to the whole number 1 at the kilo
    scale, and 1 to the whole number 1 at the unit scale, yet both are
    rendered with a decimal place: "1.0k" and "1.0". *)
Lemma short_float_whole_counterexample :
  short_float (VInt 1000) = Ok (u "1.0k") /\ short_float (VInt 1) = Ok (u "1.0").
Proof. split; vm_compute; reflexivity. Qed.

(** C5 (amended): let [num] be a finite nonzero input, [e] the exponent
    that [exponent] computes for it (comparing the double with [10**e]) and
    [e // 3] in -10..10.  With [f] the double [10**-(3*(e//3))] and [p] the
    double product [num*f], let [k] be [p*10**(1-e%3)] rounded half to
    even.  The output is the mantissa followed by the SI prefix of index
    [e // 3] (none for 0).  When [e % 3] is 0 the mantissa is [k/10] with
    exactly one decimal place, whether or not it is whole.  When [e % 3] is
    1 or 2 it is the integer [k*10**(e%3-1)]. *)
Theorem short_float_format (v : pyval) (q : Q) (e : Z)
    (Hv : py_float v = Ok (FFin q)) (He : exponent (FFin q) = EFin e)
    (Hi : -10 <= e / 3 <= 10) :
  exists f p, pow10_factor (- (3 * (e / 3))) = Ok f /\ fmul (FFin q) f = FFin p /\
  short_float v =
    Ok ((let k := round_he (Qmult p (pow10q (1 - e mod 3))) in
         if e mod 3 =? 0
         then (if k <? 0 then u "-" else []) ++ z2s (Z.abs k / 10) ++ u "." ++ z2s (Z.abs k mod 10)
         else z2s (k * 10 ^ (e mod 3 - 1)))
        ++ (if e / 3 =? 0 then []
            else [nth (Z.to_nat (Z.abs (e / 3) - 1))
                      (if e / 3 >? 0 then POS_PREFIXES else NEG_PREFIXES) 0])).
Proof.
  pose proof (py_float_fin _ _ Hv) as Hb.
  assert (Hq0 : Qeq_bool q 0 = false).
  { destruct (Qeq_bool q 0) eqn:E; [exfalso|reflexivity].
    apply Qeq_bool_iff in E.
    assert (E' : Qeq_bool (Qabs q) 0 = true) by (apply Qeq_bool_iff; rewrite E; reflexivity).
    unfold exponent in He. rewrite E' in He. discriminate He. }
  destruct (exponent_spec q Hq0 Hb) as [e' [He' [[Hlo Hhi] _]]].
  rewrite He in He'. injection He' as <-.
  assert (Hrange : -30 <= e <= 32) by (pose proof (Z.div_mod e 3); pose proof (Z.mod_pos_bound e 3); lia).
  pose proof (sf_bound_table e Hrange) as T. unfold sf_bound_ok in T.
  destruct (pow10_factor (- (3 * (e / 3)))) as [f|x] eqn:Hf; [|discriminate].
  apply andb_prop in T. destruct T as [T1 T2]. apply Qlt_bool_iff in T1, T2.
  set (c := pow10q (1 - e mod 3)) in *.
  assert (Hc : (0 < c)%Q) by (apply Qpower_0_lt; reflexivity).
  set (pr := (q * f)%Q).
  assert (Hpr : (Qabs pr <= pow10f (e + 1) * Qabs f)%Q)
    by (unfold pr; rewrite Qabs_Qmult; apply Qmult_le_compat_r; [lra | apply Qabs_nonneg]).
  set (p := round_bin64 pr).
  assert (Hp1 : (Qabs p <= pow10f (e + 1) * Qabs f * (1 + pow2q (-53)) + pow2q (-1075))%Q).
  { pose proof (rb_abs pr) as H. fold p in H.
    assert (Qabs pr * (1 + pow2q (-53)) <= pow10f (e + 1) * Qabs f * (1 + pow2q (-53)))%Q.
    { apply Qmult_le_compat_r; [exact Hpr|]. pose proof (pow2q_pos (-53)). lra. }
    lra. }
  assert (Hp2 : (Qabs p * c <= (pow10f (e + 1) * Qabs f * (1 + pow2q (-53)) + pow2q (-1075)) * c)%Q)
    by (apply Qmult_le_compat_r; [exact Hp1 | lra]).
  set (k := round_he (p * c)).
  assert (Hk : Z.abs k * 10 < 2 ^ 50).
  { pose proof (round_he_err (p * c)) as H. fold k in H.
    assert (Habs : (Qabs (p * c) == Qabs p * c)%Q) by (rewrite Qabs_Qmult, (Qabs_pos c) by lra; reflexivity).
    pose proof (Qabs_triangle (p * c - inject_Z k) (p * c)) as H2.
    pose proof (Qabs_opp (p * c - inject_Z k - p * c)) as H3.
    assert (E : (- (p * c - inject_Z k - p * c) == inject_Z k)%Q) by ring.
    rewrite E in H3.
    assert (E2 : (p * c - inject_Z k - p * c == - inject_Z k)%Q) by ring.
    assert (H4 : (Qabs (inject_Z k) <= Qabs (p * c - inject_Z k) + Qabs (p * c))%Q).
    { pose proof (Qabs_triangle (inject_Z k - p * c) (p * c)) as H5.
      assert (E3 : (inject_Z k - p * c + p * c == inject_Z k)%Q) by ring. rewrite E3 in H5.
      assert (E4 : (Qabs (inject_Z k - p * c) == Qabs (p * c - inject_Z k))%Q).
      { rewrite <- Qabs_opp. apply Qabs_wd. ring. }
      lra. }
    change (Qabs (inject_Z k)) with (inject_Z (Z.abs k)) in H4.
    assert (H6 : (inject_Z (Z.abs k * 10) < pow2q 50)%Q).
    { rewrite inject_Z_mult. change (inject_Z 10) with (10 # 1)%Q.
      set (B := ((pow10f (e + 1) * Qabs f * (1 + pow2q (-53)) + pow2q (-1075)) * c)%Q) in *.
      set (A := (Qabs p * c)%Q) in *. lra. }
    rewrite pow2q_Z in H6 by lia. rewrite <- Zlt_Qlt in H6. exact H6. }
  exists f, p. split; [reflexivity|].
  assert (Hfm : fmul (FFin q) f = FFin p) by (apply to_double_bounded; fold pr; lra).
  split; [exact Hfm|].
  unfold short_float. cbv zeta. rewrite Hv, He. cbv beta iota. rewrite Hf, Hfm.
  pose proof (Z.mod_pos_bound e 3) as Hm.
  assert (Hpre : forall s : pystr,
    (if e / 3 =? 0 then Ok s else
     if Z.abs (e / 3) - 1 <? Z.of_nat (List.length (if e / 3 >? 0 then POS_PREFIXES else NEG_PREFIXES))
     then Ok (s ++ [nth (Z.to_nat (Z.abs (e / 3) - 1)) (if e / 3 >? 0 then POS_PREFIXES else NEG_PREFIXES) 0])
     else Ok (py_str v)) =
    Ok (s ++ (if e / 3 =? 0 then []
              else [nth (Z.to_nat (Z.abs (e / 3) - 1)) (if e / 3 >? 0 then POS_PREFIXES else NEG_PREFIXES) 0]))).
  { intros s. destruct (e / 3 =? 0) eqn:E0; [rewrite app_nil_r; reflexivity|].
    assert (L : List.length (if e / 3 >? 0 then POS_PREFIXES else NEG_PREFIXES) = 10%nat)
      by (destruct (e / 3 >? 0); reflexivity).
    rewrite L. replace (Z.abs (e / 3) - 1 <? Z.of_nat 10) with true by (symmetry; apply Z.ltb_lt; lia).
    reflexivity. }
  assert (R : e mod 3 = 0 \/ e mod 3 = 1 \/ e mod 3 = 2) by lia.
  unfold py_round. fold c k. rewrite <- Hpre. clear Hpre.
  change (2 ^ 50) with 1125899906842624 in Hk.
  destruct R as [R|[R|R]]; rewrite R.
  - change (- (1 - 0)) with (-1). change (0 >? 0) with false. change (0 =? 0) with true.
    rewrite to_double_bounded.
    2: { rewrite Qabs_Qmult. change (Qabs (pow10q (-1))) with (1 # 10)%Q.
         change (Qabs (inject_Z k)) with (inject_Z (Z.abs k)).
         rewrite pow2q_Z by lia.
         assert (H1 : (inject_Z (Z.abs k) < inject_Z (2 ^ 50))%Q) by (rewrite <- Zlt_Qlt; cbn; lia).
         assert (H0 : (0 <= inject_Z (Z.abs k))%Q) by (change 0%Q with (inject_Z 0); rewrite <- Zle_Qle; lia).
         lra. }
    cbv beta iota. rewrite fmt_1f_tenths by (cbn; lia). reflexivity.
  - change (- (1 - 1)) with 0. change (1 >? 0) with true. change (1 =? 0) with false.
    destruct (fmt_int_scaled k 0) as [F1 F2]; [lia | cbn; lia |].
    rewrite F1. cbv beta iota. unfold fmt_int. rewrite F2. reflexivity.
  - change (- (1 - 2)) with 1. change (2 >? 0) with true. change (2 =? 0) with false.
    destruct (fmt_int_scaled k 1) as [F1 F2]; [lia | cbn; lia |].
    rewrite F1. cbv beta iota. unfold fmt_int. rewrite F2. reflexivity.
Qed.

(** The input ['1e24'] (typed ['1Y']): its double is just below [10**24],
    so [exponent] gives 23 and the output is ['1000Z']. *)
Lemma short_float_format_witness :
  exists q, py_float (VStr (u "1e24")) = Ok (FFin q) /\ exponent (FFin q) = EFin 23 /\
  -10 <= 23 / 3 <= 10 /\ short_float (VStr (u "1e24")) = Ok (u "1000Z") /\
  exists f p, pow10_factor (- (3 * (23 / 3))) = Ok f /\ fmul (FFin q) f = FFin p /\
  short_float (VStr (u "1e24")) =
    Ok ((let k := round_he (Qmult p (pow10q (1 - 23 mod 3))) in
         if 23 mod 3 =? 0
         then (if k <? 0 then u "-" else []) ++ z2s (Z.abs k / 10) ++ u "." ++ z2s (Z.abs k mod 10)
         else z2s (k * 10 ^ (23 mod 3 - 1)))
        ++ (if 23 / 3 =? 0 then []
            else [nth (Z.to_nat (Z.abs (23 / 3) - 1))
                      (if 23 / 3 >? 0 then POS_PREFIXES else NEG_PREFIXES) 0])).
Proof.
  set (q := match py_float (VStr (u "1e24")) with Ok (FFin q) => q | _ => 0%Q end).
  exists q.
  assert (Hv : py_float (VStr (u "1e24")) = Ok (FFin q)) by (vm_compute; reflexivity).
  assert (He : exponent (FFin q) = EFin 23) by (vm_compute; reflexivity).
  assert (Hi : -10 <= 23 / 3 <= 10) by (vm_compute; split; discriminate).
  split; [exact Hv|]. split; [exact He|]. split; [exact Hi|].
  split; [vm_compute; reflexivity|].
  exact (short_float_format (VStr (u "1e24")) q 23 Hv He Hi).
Defined.

(** ** C6 *)

(** The string [s0 ++ [c]] after the suffix substitution of [adjust_float]. *)
Definition expand_suffix (s0 : pystr) (c : Z) : pystr :=
  if existsb (Z.eqb c) NEG_PREFIXES then
    s0 ++ u "e-" ++ z2s (3 * (index_of c NEG_PREFIXES + 1))
  else if existsb (Z.eqb c) POS_PREFIXES then
    s0 ++ u "e+" ++ z2s (3 * (index_of c POS_PREFIXES + 1))
  else s0 ++ [c].

Lemma adjust_float_snoc (s0 : pystr) (c : Z) :
  adjust_float (s0 ++ [c]) =
  Ok (match short_float (VStr (expand_suffix s0 c)) with
      | Ok r => r
      | Err _ => s0 ++ [c]
      end).
Proof.
  unfold adjust_float, expand_suffix. rewrite rev_unit, removelast_last.
  destruct (existsb (Z.eqb c) NEG_PREFIXES), (existsb (Z.eqb c) POS_PREFIXES);
    destruct (short_float _); reflexivity.
Qed.

Lemma existsb_eqb_false (c : Z) (l : pystr) : ~ In c l -> existsb (Z.eqb c) l = false.
Proof.
  intros H. apply not_true_is_false. intros Hx.
  apply existsb_exists in Hx. destruct Hx as [x [Hx Hcx]].
  apply Z.eqb_eq in Hcx. subst. contradiction.
Qed.

(** C6 (counterexample): on the empty string [num[-1]] raises
    [IndexError], outside the [try] block. *)
Lemma adjust_float_empty_counterexample : adjust_float [] = Err IndexError.
Proof. reflexivity. Qed.

(** C6 (amended): for every non-empty string [adjust_float] returns a
    value without raising. A trailing prefix character, the [k]-th of
    "mμnpfazyrq" or "kMGTPEZYRQ", is replaced by [e-3(k+1)] or [e+3(k+1)];
    any other trailing character is kept. The result is [short_float] of
    the expanded string, or the original string when [short_float] raises. *)
Theorem adjust_float_nonempty :
  (forall s0 k, (k < 10)%nat ->
     adjust_float (s0 ++ [nth k NEG_PREFIXES 0]) =
     Ok (match short_float (VStr (s0 ++ u "e-" ++ z2s (3 * (Z.of_nat k + 1)))) with
         | Ok r => r | Err _ => s0 ++ [nth k NEG_PREFIXES 0] end))
  /\ (forall s0 k, (k < 10)%nat ->
     adjust_float (s0 ++ [nth k POS_PREFIXES 0]) =
     Ok (match short_float (VStr (s0 ++ u "e+" ++ z2s (3 * (Z.of_nat k + 1)))) with
         | Ok r => r | Err _ => s0 ++ [nth k POS_PREFIXES 0] end))
  /\ (forall s0 c, ~ In c NEG_PREFIXES -> ~ In c POS_PREFIXES ->
     adjust_float (s0 ++ [c]) =
     Ok (match short_float (VStr (s0 ++ [c])) with
         | Ok r => r | Err _ => s0 ++ [c] end))
  /\ (forall s, s <> [] -> exists r, adjust_float s = Ok r).
Proof.
  split; [|split; [|split]].
  - intros s0 k Hk. rewrite adjust_float_snoc.
    do 10 (destruct k as [|k]; [reflexivity|]). lia.
  - intros s0 k Hk. rewrite adjust_float_snoc.
    do 10 (destruct k as [|k]; [reflexivity|]). lia.
  - intros s0 c Hn Hp. rewrite adjust_float_snoc. unfold expand_suffix.
    rewrite (existsb_eqb_false c NEG_PREFIXES Hn), (existsb_eqb_false c POS_PREFIXES Hp).
    reflexivity.
  - intros s Hs. destruct (exists_last Hs) as [s0 [c ->]].
    rewrite adjust_float_snoc. eexists. reflexivity.
Qed.

Lemma adjust_float_nonempty_witness :
  (0 < 10)%nat /\ adjust_float (u "357" ++ [nth 0 POS_PREFIXES 0]) = Ok (u "360k").
Proof.
  split; [lia|].
  destruct adjust_float_nonempty as [_ [H _]].
  rewrite (H (u "357") 0%nat ltac:(lia)). vm_compute. reflexivity.
Defined.

(** ** C7 *)

(** The characters of the Latin-1, Latin Extended-A and Combining
    Diacritical Marks blocks (U+0000..U+017F, U+0300..U+036F). *)
Definition in_fragment (c : Z) : bool :=
  ((0 <=? c) && (c <=? 383)) || ((768 <=? c) && (c <=? 879)).

(** A character left alone by every step of [adjust_str]. *)
Definition stableb (c : Z) : bool :=
  match decomp c with [d] => d =? c | _ => false end
  && (ccc c =? 0) && negb (is_Mn c)
  && match lower_char c with [d] => d =? c | _ => false end.

Definition fragment_chars : list Z :=
  map Z.of_nat (seq 0 384) ++ map Z.of_nat (seq 768 112).

(** Every character that survives the mark filter after decomposing a
    character of the fragment lowercases to stable characters. *)
Definition fragment_closed : bool :=
  forallb (fun c => forallb (fun d => is_Mn d || forallb stableb (lower_char d)) (decomp c))
          fragment_chars.

Lemma fragment_closed_true : fragment_closed = true.
Proof. vm_compute. reflexivity. Qed.

Lemma stableb_spec c :
  stableb c = true -> decomp c = [c] /\ ccc c = 0 /\ is_Mn c = false /\ lower_char c = [c].
Proof.
  unfold stableb. intros H.
  apply andb_prop in H as [H H4]. apply andb_prop in H as [H H3].
  apply andb_prop in H as [H1 H2].
  destruct (decomp c) as [|d [|]]; try discriminate. apply Z.eqb_eq in H1.
  destruct (lower_char c) as [|e [|]]; try discriminate. apply Z.eqb_eq in H4.
  apply Z.eqb_eq in H2. apply negb_true_iff in H3. subst. auto.
Qed.

Lemma in_fragment_chars c : in_fragment c = true -> In c fragment_chars.
Proof.
  unfold in_fragment, fragment_chars. intros H. apply in_or_app.
  apply orb_prop in H as [H | H]; apply andb_prop in H as [H1 H2];
    apply Z.leb_le in H1; apply Z.leb_le in H2; [left | right];
    apply in_map_iff; exists (Z.to_nat c); split; try lia; apply in_seq; lia.
Qed.

Lemma fragment_decomp_stable c d x :
  in_fragment c = true -> In d (decomp c) -> is_Mn d = false -> In x (lower_char d) ->
  stableb x = true.
Proof.
  intros Hc Hd Hm Hx.
  pose proof fragment_closed_true as H. unfold fragment_closed in H.
  rewrite forallb_forall in H. specialize (H c (in_fragment_chars c Hc)).
  rewrite forallb_forall in H. specialize (H d Hd). rewrite Hm in H.
  cbn in H. rewrite forallb_forall in H. auto.
Qed.

Lemma insert_ccc_in x c run : In x (insert_ccc c run) -> x = c \/ In x run.
Proof.
  induction run as [|y run IH]; cbn; [intros [H | []]; auto|].
  destruct (ccc c <? ccc y); cbn.
  - intros [H | H]; auto.
  - intros [H | H]; auto. destruct (IH H); auto.
Qed.

Lemma reorder_go_in x s run : In x (reorder_go s run) -> In x s \/ In x run.
Proof.
  revert run; induction s as [|c s IH]; intros run; cbn; [auto|].
  destruct (ccc c =? 0).
  - intros H. apply in_app_or in H as [H | [H | H]]; auto.
    destruct (IH [] H) as [H' | []]; auto.
  - intros H. destruct (IH _ H) as [H' | H']; auto.
    destruct (insert_ccc_in x c run H'); subst; auto.
Qed.

Lemma skipn_in {A} (x : A) n l : In x (skipn n l) -> In x l.
Proof. intros H. rewrite <- (firstn_skipn n l). apply in_or_app. auto. Qed.

Lemma replace_go_in x old new s d p :
  In x (replace_go old new s d p) -> In x s \/ In x d \/ In x p \/ In x new.
Proof.
  revert d p; induction s as [|c s IH]; intros d p; cbn.
  - rewrite <- in_rev. intros H. apply in_app_or in H. tauto.
  - destruct (is_prefix (rev old) (c :: p)); intros H;
      destruct (IH _ _ H) as [H1 | [H1 | [H1 | H1]]]; auto.
    + apply in_app_or in H1 as [H1 | H1]; [rewrite <- in_rev in H1; auto|].
      apply in_app_or in H1 as [H1 | H1]; auto.
      apply skipn_in in H1. destruct H1; auto.
    + contradiction.
    + destruct H1; auto.
Qed.

Lemma collapse_loop_in x fuel t : In x (collapse_loop fuel t) -> In x t \/ x = 32.
Proof.
  revert t; induction fuel as [|fuel IH]; intros t; cbn; [auto|].
  destruct (contains two_spaces t); [|auto].
  intros H. destruct (IH _ H) as [H1 | H1]; auto.
  destruct (replace_go_in x _ _ _ _ _ H1) as [H2 | [[] | [[] | [H2 | []]]]]; auto.
Qed.

Lemma replace_go_length s d p :
  (List.length (replace_go two_spaces [32%Z] s d p) <= List.length s + List.length d + List.length p)%nat.
Proof.
  revert d p; induction s as [|c s IH]; intros d p; cbn [replace_go].
  - rewrite length_rev, length_app. cbn. lia.
  - destruct (is_prefix (rev two_spaces) (c :: p)) eqn:E.
    + destruct p as [|y p]; [cbn in E; rewrite andb_false_r in E; discriminate|].
      etransitivity; [apply IH|]. cbn. rewrite ?length_app. cbn. lia.
    + etransitivity; [apply IH|]. cbn. rewrite ?length_app. cbn. lia.
Qed.

Lemma replace_go_shorter s d p :
  contains two_spaces s = true ->
  (List.length (replace_go two_spaces [32%Z] s d p) < List.length s + List.length d + List.length p)%nat.
Proof.
  revert d p; induction s as [|c s IH]; intros d p Hc; [discriminate|].
  cbn [replace_go].
  destruct (is_prefix (rev two_spaces) (c :: p)) eqn:E.
  - destruct p as [|y p]; [cbn in E; rewrite andb_false_r in E; discriminate|].
    eapply Nat.le_lt_trans; [apply replace_go_length|]. cbn. rewrite ?length_app. cbn. lia.
  - cbn [contains] in Hc. apply orb_prop in Hc as [Hc | Hc].
    + destruct s as [|c' s]; [cbn in Hc; rewrite andb_false_r in Hc; discriminate|].
      cbn [is_prefix two_spaces] in Hc. rewrite andb_true_r in Hc.
      apply andb_prop in Hc as [H1 H2]. apply Z.eqb_eq in H1, H2. subst.
      cbn [replace_go].
      replace (is_prefix (rev two_spaces) (32 :: 32 :: p)) with true by reflexivity.
      eapply Nat.le_lt_trans; [apply replace_go_length|]. cbn. rewrite ?length_app. cbn. lia.
    + eapply Nat.lt_le_trans; [apply IH; exact Hc|]. cbn. lia.
Qed.

Lemma collapse_loop_no_double fuel t :
  (List.length t < fuel)%nat -> contains two_spaces (collapse_loop fuel t) = false.
Proof.
  revert t; induction fuel as [|fuel IH]; intros t Hl; [lia|].
  cbn [collapse_loop]. destruct (contains two_spaces t) eqn:Ec; [|exact Ec].
  apply IH. unfold py_replace.
  pose proof (replace_go_shorter t [] [] Ec). cbn in *. lia.
Qed.

Lemma flat_map_decomp_stable s :
  Forall (fun c => stableb c = true) s -> flat_map decomp s = s.
Proof.
  induction 1 as [|c s Hc _ IH]; [reflexivity|].
  cbn. destruct (stableb_spec c Hc) as [-> _]. cbn. now rewrite IH.
Qed.

Lemma reorder_go_stable s :
  Forall (fun c => stableb c = true) s -> reorder_go s [] = s.
Proof.
  induction 1 as [|c s Hc _ IH]; [reflexivity|].
  cbn. destruct (stableb_spec c Hc) as [_ [-> _]]. cbn. now rewrite IH.
Qed.

Lemma filter_Mn_stable s :
  Forall (fun c => stableb c = true) s -> filter (fun c => negb (is_Mn c)) s = s.
Proof.
  induction 1 as [|c s Hc _ IH]; [reflexivity|].
  cbn. destruct (stableb_spec c Hc) as [_ [_ [-> _]]]. cbn. now rewrite IH.
Qed.

Lemma py_lower_stable s :
  Forall (fun c => stableb c = true) s -> py_lower s = s.
Proof.
  induction 1 as [|c s Hc _ IH]; [reflexivity|].
  unfold py_lower in *. cbn. destruct (stableb_spec c Hc) as [_ [_ [_ ->]]]. cbn. now rewrite IH.
Qed.

Lemma adjust_str_stable s :
  Forall (fun c => in_fragment c = true) s -> Forall (fun c => stableb c = true) (adjust_str s).
Proof.
  intros Hs. apply Forall_forall. intros x Hx.
  unfold adjust_str in Hx. apply collapse_loop_in in Hx as [Hx | ->]; [|reflexivity].
  unfold py_lower in Hx. apply in_flat_map in Hx as [y [Hy Hx]].
  unfold normalize in Hy. apply filter_In in Hy as [Hy Hm]. apply negb_true_iff in Hm.
  unfold nfd in Hy. apply reorder_go_in in Hy as [Hy | []].
  apply in_flat_map in Hy as [c [Hc Hy]].
  rewrite Forall_forall in Hs.
  exact (fragment_decomp_stable c y x (Hs c Hc) Hy Hm Hx).
Qed.

(** C7 (counterexample): outside the fragment, the model's character
    database records U+302E (class 224) and U+1715 (class 9) with the
    mark U+034F (class 0) between them. Dropping the mark lets the second
    pass reorder the two characters. *)
Lemma adjust_str_idempotent_counterexample :
  adjust_str [12334; 847; 5909] = [12334; 5909]
  /\ adjust_str (adjust_str [12334; 847; 5909]) = [5909; 12334].
Proof. split; vm_compute; reflexivity. Qed.

(** C7 (amended): on strings of characters from U+0000..U+017F and
    U+0300..U+036F, [adjust_str] is idempotent; and "ÀLAND" and "aland"
    normalize to the same string. *)
Theorem adjust_str_idempotent_fragment (s : pystr)
    (Hs : Forall (fun c => in_fragment c = true) s) :
  adjust_str (adjust_str s) = adjust_str s
  /\ adjust_str ([192] ++ u "LAND") = adjust_str (u "aland").
Proof.
  split; [|vm_compute; reflexivity].
  pose proof (adjust_str_stable s Hs) as Hst.
  set (t := adjust_str s) in *.
  assert (Hnd : contains two_spaces t = false)
    by (unfold t, adjust_str; apply collapse_loop_no_double; lia).
  unfold adjust_str at 1, normalize, nfd.
  rewrite (flat_map_decomp_stable t Hst), (reorder_go_stable t Hst),
    (filter_Mn_stable t Hst), (py_lower_stable t Hst).
  cbn [collapse_loop]. now rewrite Hnd.
Qed.

Lemma adjust_str_idempotent_fragment_witness :
  Forall (fun c => in_fragment c = true) ([192] ++ u "LAND")
  /\ adjust_str (adjust_str ([192] ++ u "LAND")) = adjust_str ([192] ++ u "LAND").
Proof.
  assert (H : Forall (fun c => in_fragment c = true) ([192] ++ u "LAND"))
    by (vm_compute; repeat constructor).
  split; [exact H|].
  exact (proj1 (adjust_str_idempotent_fragment ([192] ++ u "LAND") H)).
Defined.

(** ** C9 *)

(** C9: with fewer than two distinct answer values, [run_quiz] prints
    the one error line, reads no input, and raises [InputException], which
    [main] catches to end the session normally. With two or more, the run
    goes on to the option-count prompt. *)
Theorem run_quiz_needs_two_answers cfg ask_topic questions answers :
  ((List.length (to_set answers) < 2)%nat -> forall w,
     run_quiz cfg ask_topic questions answers w
     = (Err InputException,
        World (inputs w) (rands w)
              (outputs w ++ [u "Error: " ++ u "Not enough possible answer options" ++ u "."]))
     /\ try_except is_input_exception (run_quiz cfg ask_topic questions answers) (ret tt) w
        = (Ok tt,
           World (inputs w) (rands w)
                 (outputs w ++ [u "Error: " ++ u "Not enough possible answer options" ++ u "."])))
  /\ ((2 <= List.length (to_set answers))%nat ->
      exists k, run_quiz cfg ask_topic questions answers
                = bind (choose_int (u "number of options") 2
                                   (Z.min MAX_N_OPTS (Z.of_nat (List.length (to_set answers))))
                                   (n_opts_other questions)) k).
Proof.
  split.
  - intros Hl w.
    assert (Hr : run_quiz cfg ask_topic questions answers w
                 = (Err InputException,
                    World (inputs w) (rands w)
                          (outputs w ++ [u "Error: " ++ u "Not enough possible answer options" ++ u "."]))).
    { unfold run_quiz.
      replace (Z.of_nat (List.length (to_set answers)) <? 2) with true
        by (symmetry; apply Z.ltb_lt; lia).
      reflexivity. }
    split; [exact Hr|]. unfold try_except. rewrite Hr. reflexivity.
  - intros Hl. unfold run_quiz.
    replace (Z.of_nat (List.length (to_set answers)) <? 2) with false
      by (symmetry; apply Z.ltb_ge; lia).
    eexists. reflexivity.
Qed.

Lemma run_quiz_needs_two_answers_witness :
  (List.length (to_set [u "Asia"]) < 2)%nat
  /\ fst (run_quiz (topic_config sample_countries (u "region")) true [u "Cmr"] [u "Asia"]
                   (World [] [] [])) = Err InputException.
Proof.
  assert (H : (List.length (to_set [u "Asia"]) < 2)%nat) by (vm_compute; lia).
  split; [exact H|].
  destruct (proj1 (run_quiz_needs_two_answers (topic_config sample_countries (u "region"))
                     true [u "Cmr"] [u "Asia"]) H (World [] [] [])) as [H1 _].
  rewrite H1. reflexivity.
Defined.

(** ** C10 *)

(** The tokens [read_input(True, True)] returns for a line. *)
Definition line_tokens (l : pystr) : list pystr := map strip (py_split DELIM (strip l)).

(** The option index a token denotes, [int(token)]. *)
Definition token_index (t : pystr) : Z :=
  match py_int t with Some k => k | None => 0 end.

(** A token [choose_opts] accepts among [n] options. *)
Definition valid_index (n : nat) (t : pystr) : bool :=
  py_isdigit t && match py_int t with
                  | Some k => (1 <=? k) && (k <=? Z.of_nat n)
                  | None => false
                  end.

Definition token_indices (l : pystr) : list Z := map token_index (line_tokens l).

Definition pick (choices : list pystr) (k : Z) : pystr := nth (Z.to_nat (k - 1)) choices [].

Definition str_lt (a b : pystr) : Prop := str_ltb a b = true.

Lemma str_ltb_irrefl a : str_ltb a a = false.
Proof.
  induction a as [|x a IH]; [reflexivity|]. cbn.
  rewrite Z.ltb_irrefl. exact IH.
Qed.

Lemma str_ltb_trans a b c : str_ltb a b = true -> str_ltb b c = true -> str_ltb a c = true.
Proof.
  revert b c; induction a as [|x a IH]; intros [|y b] [|z c]; cbn; try discriminate; auto.
  destruct (Z.ltb_spec x y), (Z.ltb_spec y x), (Z.ltb_spec y z), (Z.ltb_spec z y),
           (Z.ltb_spec x z), (Z.ltb_spec z x); try discriminate; try lia; auto;
    replace z with x in * by lia; replace y with x in * by lia; eauto.
Qed.

Lemma str_ltb_total a b : a <> b -> str_ltb a b = true \/ str_ltb b a = true.
Proof.
  revert b; induction a as [|x a IH]; intros [|y b] H; cbn; auto; try congruence.
  destruct (Z.ltb_spec x y), (Z.ltb_spec y x); auto; try lia.
  replace y with x in * by lia. apply IH. congruence.
Qed.

Lemma str_ltb_asym a b : str_ltb a b = true -> str_ltb b a = false.
Proof.
  intros H. destruct (str_ltb b a) eqn:E; [|reflexivity].
  pose proof (str_ltb_trans _ _ _ H E). rewrite str_ltb_irrefl in *. discriminate.
Qed.

Lemma insert_str_in x y l : In x (insert_str y l) <-> x = y \/ In x l.
Proof.
  induction l as [|z l IH]; cbn; [intuition congruence|].
  destruct (str_ltb z y); cbn; [rewrite IH|]; intuition congruence.
Qed.

Lemma sorted_str_in x l : In x (sorted_str l) <-> In x l.
Proof.
  induction l as [|y l IH]; cbn; [tauto|]. rewrite insert_str_in, IH. intuition congruence.
Qed.

Lemma insert_str_sorted x l :
  StronglySorted str_lt l -> ~ In x l -> StronglySorted str_lt (insert_str x l).
Proof.
  induction 1 as [|y l Hl IH Hf]; intros Hx; cbn.
  - repeat constructor.
  - destruct (str_ltb y x) eqn:E.
    + constructor.
      * apply IH. intros H. apply Hx. now right.
      * apply Forall_forall. intros z Hz. apply insert_str_in in Hz as [-> | Hz]; [exact E|].
        rewrite Forall_forall in Hf. auto.
    + assert (Hxy : str_ltb x y = true).
      { destruct (str_ltb_total x y) as [H | H]; auto; [|congruence].
        intros ->. apply Hx. now left. }
      constructor; [constructor; auto|].
      constructor; [exact Hxy|]. apply Forall_forall. intros z Hz.
      rewrite Forall_forall in Hf. exact (str_ltb_trans _ _ _ Hxy (Hf z Hz)).
Qed.

Lemma sorted_str_sorted l : NoDup l -> StronglySorted str_lt (sorted_str l).
Proof.
  induction 1 as [|x l Hx _ IH]; cbn; [constructor|].
  apply insert_str_sorted; [exact IH|]. now rewrite sorted_str_in.
Qed.

Lemma strongly_sorted_unique a b :
  StronglySorted str_lt a -> StronglySorted str_lt b ->
  (forall x, In x a <-> In x b) -> a = b.
Proof.
  intros Ha; revert b; induction Ha as [|x a Ha IH Hfa]; intros b Hb Hab.
  - destruct b as [|y b]; [reflexivity|]. exfalso. apply (proj2 (Hab y)). now left.
  - destruct Hb as [|y b Hb Hfb].
    + exfalso. apply (proj1 (Hab x)). now left.
    + rewrite Forall_forall in Hfa, Hfb.
      assert (Hxy : x = y).
      { destruct (proj1 (Hab x) (or_introl eq_refl)) as [H | H]; [congruence|].
        destruct (proj2 (Hab y) (or_introl eq_refl)) as [H' | H']; [congruence|].
        pose proof (str_ltb_asym _ _ (Hfb x H)) as Hc. unfold str_lt in Hfa.
        rewrite (Hfa y H') in Hc. discriminate. }
      subst y. f_equal. apply IH; [exact Hb|]. intros z. split; intros Hz.
      * destruct (proj1 (Hab z) (or_intror Hz)) as [<- | H]; [|exact H].
        pose proof (Hfa x Hz) as Hc. unfold str_lt in Hc. rewrite str_ltb_irrefl in Hc. discriminate.
      * destruct (proj2 (Hab z) (or_intror Hz)) as [<- | H]; [|exact H].
        pose proof (Hfb x Hz) as Hc. unfold str_lt in Hc. rewrite str_ltb_irrefl in Hc. discriminate.
Qed.

Lemma mem_in x s : mem x s = true <-> In x s.
Proof.
  unfold mem. rewrite existsb_exists. split.
  - intros [y [Hy Hxy]]. apply str_eqb_eq in Hxy. now subst.
  - intros H. exists x. split; [exact H|]. now apply str_eqb_eq.
Qed.

Lemma set_add_in x y s : In x (set_add y s) <-> x = y \/ In x s.
Proof.
  unfold set_add. destruct (mem y s) eqn:E.
  - apply mem_in in E. split; [auto|]. intros [-> | H]; auto.
  - rewrite in_app_iff. cbn. intuition.
Qed.

Lemma set_add_nodup y s : NoDup s -> NoDup (set_add y s).
Proof.
  unfold set_add. destruct (mem y s) eqn:E; intros H; [exact H|].
  apply NoDup_app; [exact H | repeat constructor; auto |].
  intros x Hx [<- | []]. apply mem_in in Hx. congruence.
Qed.

Definition collect (choices : list pystr) (tokens : list pystr) (acc : list pystr) : list pystr :=
  fold_left (fun acc t => set_add (pick choices (token_index t)) acc) tokens acc.

Lemma collect_in choices tokens acc x :
  In x (collect choices tokens acc) <-> In x acc \/ In x (map (pick choices) (map token_index tokens)).
Proof.
  unfold collect. revert acc; induction tokens as [|t ts IH]; intros acc; cbn; [tauto|].
  rewrite IH, set_add_in. intuition congruence.
Qed.

Lemma collect_nodup choices tokens acc : NoDup acc -> NoDup (collect choices tokens acc).
Proof.
  unfold collect. revert acc; induction tokens as [|t ts IH]; intros acc H; cbn; [exact H|].
  apply IH. now apply set_add_nodup.
Qed.

Lemma opts_tokens_valid choices multiple tokens acc w :
  forallb (valid_index (List.length choices)) tokens = true ->
  opts_tokens choices multiple tokens acc w = (Ok (Some (collect choices tokens acc)), w).
Proof.
  revert acc; induction tokens as [|t ts IH]; intros acc Hv; [reflexivity|].
  cbn [forallb] in Hv. apply andb_prop in Hv as [Ht Hv].
  unfold valid_index in Ht. apply andb_prop in Ht as [Hd Hk].
  cbn [opts_tokens]. rewrite Hd.
  destruct (py_int t) as [k|] eqn:Ek; [|discriminate].
  apply andb_prop in Hk as [Hk1 Hk2]. apply Z.leb_le in Hk1, Hk2.
  replace ((0 <=? k - 1) && (k - 1 <? Z.of_nat (List.length choices))) with true
    by (symmetry; apply andb_true_intro; split; [apply Z.leb_le | apply Z.ltb_lt]; lia).
  rewrite IH by exact Hv. unfold collect, pick, token_index. cbn. now rewrite Ek.
Qed.

Lemma choose_opts_loop_valid f choices l rest rs out :
  forallb (valid_index (List.length choices)) (line_tokens l) = true ->
  choose_opts_loop (S f) choices true (World (l :: rest) rs out)
  = (Ok (arr2str (collect choices (line_tokens l) [])), World rest rs out).
Proof.
  intros Hv. cbn [choose_opts_loop]. unfold bind at 1, read_input_arr, bind at 1.
  unfold read_input_line, bind at 1, input. cbn [inputs rands outputs].
  unfold line_tokens in *.
  destruct (strip l) as [|z zs] eqn:E; [cbn in Hv; discriminate|].
  cbn [ret]. unfold bind. rewrite opts_tokens_valid by exact Hv. reflexivity.
Qed.

Lemma arr2str_collect choices t1 t2 :
  (forall k, In k (map token_index t1) <-> In k (map token_index t2)) ->
  arr2str (collect choices t1 []) = arr2str (collect choices t2 []).
Proof.
  intros Hs. unfold arr2str. f_equal.
  apply strongly_sorted_unique;
    try (apply sorted_str_sorted, collect_nodup; constructor).
  intros x. rewrite !sorted_str_in, !collect_in, !in_map_iff.
  split; (intros [[] | [k [Hk Hin]]]; right; exists k; split; [exact Hk | apply Hs; exact Hin]).
Qed.

(** C10: at a multiple-choice prompt, two input lines whose tokens are
    all valid option indices and that name the same set of indices lead
    to the same joined choice string and the same state: duplicated and
    reordered indices make no difference. *)
Theorem choose_opts_index_set head choices l1 l2 rest rs out
    (H1 : forallb (valid_index (List.length choices)) (line_tokens l1) = true)
    (H2 : forallb (valid_index (List.length choices)) (line_tokens l2) = true)
    (Hs : forall k, In k (token_indices l1) <-> In k (token_indices l2)) :
  choose_opts head choices true (World (l1 :: rest) rs out)
  = choose_opts head choices true (World (l2 :: rest) rs out).
Proof.
  unfold choose_opts, bind, print, input_fuel. cbn [inputs rands outputs List.length].
  rewrite !choose_opts_loop_valid by assumption.
  f_equal. f_equal. apply arr2str_collect. exact Hs.
Qed.

Lemma choose_opts_index_set_witness :
  forallb (valid_index 3) (line_tokens (u "2, 1,2")) = true
  /\ forallb (valid_index 3) (line_tokens (u "1,2")) = true
  /\ choose_opts (u "x") [u "a"; u "b"; u "c"] true (World [u "2, 1,2"] [] [])
     = choose_opts (u "x") [u "a"; u "b"; u "c"] true (World [u "1,2"] [] []).
Proof.
  assert (Ha : forallb (valid_index 3) (line_tokens (u "2, 1,2")) = true) by (vm_compute; reflexivity).
  assert (Hb : forallb (valid_index 3) (line_tokens (u "1,2")) = true) by (vm_compute; reflexivity).
  split; [exact Ha | split; [exact Hb |]].
  apply (choose_opts_index_set (u "x") [u "a"; u "b"; u "c"] (u "2, 1,2") (u "1,2") [] [] []
           Ha Hb).
  intros k. vm_compute. tauto.
Defined.

(** ** C8 *)

Lemma fold_set_add_in l acc x :
  In x (fold_left (fun s y => set_add y s) l acc) <-> In x acc \/ In x l.
Proof.
  revert acc; induction l as [|y l IH]; intros acc; cbn; [tauto|].
  rewrite IH, set_add_in. intuition congruence.
Qed.

Lemma fold_set_add_nodup l acc : NoDup acc -> NoDup (fold_left (fun s y => set_add y s) l acc).
Proof.
  revert acc; induction l as [|y l IH]; intros acc H; cbn; [exact H|].
  apply IH. now apply set_add_nodup.
Qed.

Lemma to_set_in l x : In x (to_set l) <-> In x l.
Proof. unfold to_set. rewrite fold_set_add_in. cbn. tauto. Qed.

Lemma to_set_nodup l : NoDup (to_set l).
Proof. apply fold_set_add_nodup. constructor. Qed.

Lemma set_add_length x s :
  List.length (set_add x s) = (if mem x s then List.length s else S (List.length s)).
Proof. unfold set_add. destruct (mem x s); [reflexivity|]. rewrite length_app. cbn. lia. Qed.

(** The state of the sampling loop for the drawn pair [(question, a0)]:
    the options are duplicate-free and hold the accepted answers, which
    hold [a0]; there are at most [n_opts] options; an option outside the
    accepted answers is the answer of another question; an accepted answer
    other than [a0] is an answer of the same question, folded in only
    with multi-answer acceptance on. *)
Definition sample_inv (questions answers : list pystr) (md : opts_mode) (n_opts : Z)
    (question a0 : pystr) (options answer : list pystr) : Prop :=
  NoDup options /\ incl answer options /\ In a0 answer
  /\ Z.of_nat (List.length options) <= n_opts
  /\ (forall x, In x options -> ~ In x answer ->
        exists j, (j < List.length answers)%nat /\ nth j answers [] = x
                  /\ nth j questions [] <> question)
  /\ (forall x, In x answer -> x = a0 \/
        (multiple_answers md = true
         /\ exists j, (j < List.length answers)%nat /\ nth j answers [] = x
                      /\ nth j questions [] = question)).

Lemma sample_step_inv questions answers md n_opts question a0 options answer j :
  (j < List.length answers)%nat ->
  Z.of_nat (List.length options) < n_opts ->
  sample_inv questions answers md n_opts question a0 options answer ->
  let '(o, a) := sample_step questions answers md question j options answer in
  sample_inv questions answers md n_opts question a0 o a.
Proof.
  intros Hj Hl Hinv. pose proof Hinv as (Hnd & Hinc & Ha0 & Hle & Hdis & Hfold).
  unfold sample_step.
  set (opt := nth j answers []).
  destruct (mem opt options) eqn:Em; cbn [negb]; [exact Hinv|].
  assert (Hlen : Z.of_nat (List.length (set_add opt options)) <= n_opts)
    by (rewrite set_add_length, Em; lia).
  assert (Hn : ~ In opt options) by (rewrite <- mem_in; congruence).
  destruct (str_eqb question (nth j questions [])) eqn:Eq; cbn [negb].
  - apply str_eqb_eq in Eq.
    destruct (multiple_answers md) eqn:Emu; [|exact Hinv].
    split; [now apply set_add_nodup|].
    split; [intros x Hx; apply set_add_in in Hx as [-> | Hx]; apply set_add_in; auto|].
    split; [apply set_add_in; auto|].
    split; [exact Hlen|].
    split.
    + intros x Hx Hxa. apply set_add_in in Hx as [-> | Hx].
      * exfalso. apply Hxa. apply set_add_in. auto.
      * apply Hdis; [exact Hx|]. intros H. apply Hxa. apply set_add_in. auto.
    + intros x Hx. apply set_add_in in Hx as [Hx | Hx];
      [|destruct (Hfold x Hx) as [H | H]; [now left | right; rewrite Emu; exact H]].
      right. split; [exact Emu|]. exists j. split; [exact Hj|]. split; [now rewrite Hx|].
      now symmetry.
  - assert (Hq : nth j questions [] <> question)
      by (intros H; rewrite H, (proj2 (str_eqb_eq _ _) eq_refl) in Eq; discriminate).
    split; [now apply set_add_nodup|].
    split; [intros x Hx; apply set_add_in; auto|].
    split; [exact Ha0|].
    split; [exact Hlen|].
    split; [|exact Hfold].
    intros x Hx Hxa. apply set_add_in in Hx as [Hx | Hx]; [|auto].
    exists j. split; [exact Hj|]. split; [now rewrite Hx|]. exact Hq.
Qed.

Lemma randint0_index (x : Z) (n : nat) :
  (0 < n)%nat -> (Z.to_nat (x mod Z.of_nat n) < n)%nat.
Proof.
  intros Hn. pose proof (Z.mod_pos_bound x (Z.of_nat n) ltac:(lia)). lia.
Qed.

Lemma sample_loop_inv questions answers md n_opts question a0 fuel :
  forall options answer w o a w',
  (0 < List.length answers)%nat ->
  sample_inv questions answers md n_opts question a0 options answer ->
  sample_loop questions answers md n_opts fuel question options answer w = (Ok (o, a), w') ->
  sample_inv questions answers md n_opts question a0 o a /\ n_opts <= Z.of_nat (List.length o).
Proof.
  induction fuel as [|fuel IH]; intros options answer w o a w' HN Hinv Hrun;
    cbn [sample_loop] in Hrun; [discriminate|].
  destruct (Z.of_nat (List.length options) <? n_opts) eqn:El.
  - apply Z.ltb_lt in El. unfold bind, randint0 in Hrun.
    destruct (rands w) as [|x rs]; [discriminate|].
    pose proof (randint0_index x _ HN) as Hj.
    pose proof (sample_step_inv questions answers md n_opts question a0 options answer _ Hj El Hinv)
      as Hstep.
    destruct (sample_step questions answers md question _ options answer) as [o1 a1].
    exact (IH _ _ _ _ _ _ HN Hstep Hrun).
  - apply Z.ltb_ge in El. unfold ret in Hrun. injection Hrun as <- <- _. auto.
Qed.

Lemma sample_step_options (questions answers : list pystr) (md : opts_mode) (question : pystr)
    (j : nat) (options answer : list pystr) :
  fst (sample_step questions answers md question j options answer) = options
  \/ fst (sample_step questions answers md question j options answer)
     = set_add (nth j answers []) options.
Proof.
  unfold sample_step.
  destruct (mem _ options), (str_eqb _ _), (multiple_answers md); cbn; auto.
Qed.

Lemma sample_progress (questions answers : list pystr) (md : opts_mode) (question : pystr)
    (i : nat) (options answer : list pystr) :
  List.length questions = List.length answers ->
  (i < List.length answers)%nat -> nth i questions [] = question ->
  In (nth i answers []) options -> NoDup options ->
  (multiple_answers md = true \/ NoDup questions) ->
  (List.length options < List.length (to_set answers))%nat ->
  exists j, (j < List.length answers)%nat
    /\ List.length (fst (sample_step questions answers md question j options answer))
       = S (List.length options).
Proof.
  intros Hlen Hi Hq Ha0 Hnd Hmd Hlt.
  destruct (existsb (fun x => negb (mem x options)) answers) eqn:Ex.
  - apply existsb_exists in Ex as [x [Hx Hm]]. apply negb_true_iff in Hm.
    destruct (In_nth answers x [] Hx) as [j [Hj Hjx]].
    exists j. split; [exact Hj|].
    subst x.
    assert (Hm' : mem (@nth pystr j answers []) options = false) by exact Hm.
    unfold sample_step. cbv zeta. rewrite Hm'. cbn [negb].
    assert (Hgrow : List.length (set_add (@nth pystr j answers []) options)
                    = S (List.length options))
      by (rewrite set_add_length, Hm'; reflexivity).
    destruct (str_eqb question (nth j questions [])) eqn:Eq; cbn [negb]; [|exact Hgrow].
    destruct (multiple_answers md) eqn:Emu; [exact Hgrow|].
    destruct Hmd as [Hmd | Hmd]; [discriminate|].
    apply str_eqb_eq in Eq. subst question.
    assert (j = i).
    { apply (proj1 (NoDup_nth questions []) Hmd); try lia. now symmetry. }
    subst j. apply mem_in in Ha0. congruence.
  - exfalso.
    assert (Hincl : incl (to_set answers) options).
    { intros x Hx. apply (proj1 (to_set_in answers x)) in Hx. apply mem_in.
      destruct (mem x options) eqn:E; [reflexivity|].
      assert (Ht : existsb (fun x => negb (mem x options)) answers = true)
        by (apply existsb_exists; exists x; rewrite E; split; [exact Hx | reflexivity]).
      congruence. }
    pose proof (NoDup_incl_length (to_set_nodup answers) Hincl). lia.
Qed.

Lemma sample_loop_draws (questions answers : list pystr) (md : opts_mode) (n_opts : Z) (i : nat)
    (Hlen : List.length questions = List.length answers)
    (Hi : (i < List.length answers)%nat)
    (Hmd : multiple_answers md = true \/ NoDup questions)
    (Hpool : n_opts <= Z.of_nat (List.length (to_set answers))) :
  forall k options answer ins outs,
  Z.to_nat (n_opts - Z.of_nat (List.length options)) = k ->
  Z.of_nat (List.length options) <= n_opts ->
  In (nth i answers []) options -> NoDup options ->
  exists rs o a,
    sample_loop questions answers md n_opts (S (List.length rs)) (nth i questions [])
                options answer (World ins rs outs) = (Ok (o, a), World ins [] outs)
    /\ Z.of_nat (List.length o) = n_opts.
Proof.
  induction k as [|k IH]; intros options answer ins outs Hk Hle Ha0 Hnd.
  - exists [], options, answer. cbn [sample_loop List.length].
    replace (Z.of_nat (List.length options) <? n_opts) with false
      by (symmetry; apply Z.ltb_ge; lia).
    split; [reflexivity | lia].
  - assert (Hlt : (List.length options < List.length (to_set answers))%nat) by lia.
    destruct (sample_progress questions answers md _ i options answer Hlen Hi eq_refl
                Ha0 Hnd Hmd Hlt) as [j [Hj Hgrow]].
    destruct (sample_step questions answers md (nth i questions []) j options answer)
      as [o1 a1] eqn:Es.
    cbn [fst] in Hgrow.
    assert (Ho1 : o1 = set_add (nth j answers []) options).
    { destruct (sample_step_options questions answers md (nth i questions []) j options answer)
        as [H | H]; rewrite Es in H; cbn [fst] in H; [|exact H].
      subst o1. lia. }
    destruct (IH o1 a1 ins outs) as [rs [o [a [Hrun Ho]]]].
    + lia.
    + lia.
    + rewrite Ho1. apply set_add_in. auto.
    + rewrite Ho1. now apply set_add_nodup.
    + exists (Z.of_nat j :: rs), o, a. split; [|exact Ho].
      cbn [sample_loop List.length].
      replace (Z.of_nat (List.length options) <? n_opts) with true
        by (symmetry; apply Z.ltb_lt; lia).
      unfold bind, randint0. cbn [rands inputs outputs].
      rewrite Z.mod_small by lia. rewrite Nat2Z.id, Es. exact Hrun.
Qed.

(** The data of the C8 counterexample: the label Q is shared by three
    pairs, and multi-answer acceptance is off, as in the
    "country -> topic" direction with records of the same name. *)
Definition dup_questions : list pystr := [u "Q"; u "Q"; u "Q"; u "R"].
Definition dup_answers : list pystr := [u "a"; u "b"; u "c"; u "d"].
Definition dup_md : opts_mode :=
  opts_config 3 4 (to_set dup_answers) true true (fun d => Ok d).

(** The two states the loop below moves between: options [{a}] or
    [{a, d}], accepted answers [{a}]. *)
Definition dup_state (o : list pystr) : Prop := o = [u "a"] \/ o = [u "a"; u "d"].

Lemma dup_step (j : nat) (o : list pystr) :
  (j < 4)%nat -> dup_state o ->
  exists o', sample_step dup_questions dup_answers dup_md (u "Q") j o [u "a"] = (o', [u "a"])
             /\ dup_state o'.
Proof.
  intros Hj Ho. unfold dup_state in Ho.
  exists (fst (sample_step dup_questions dup_answers dup_md (u "Q") j o [u "a"])).
  destruct Ho as [-> | ->];
    (do 4 (destruct j as [|j];
           [split; [vm_compute; reflexivity | unfold dup_state; vm_compute;
                                              first [left; reflexivity | right; reflexivity]] |]));
    lia.
Qed.

Lemma dup_loop_stuck (fuel : nat) (o : list pystr) (w : world) :
  dup_state o ->
  fst (sample_loop dup_questions dup_answers dup_md 3 fuel (u "Q") o [u "a"] w) = Err OutOfFuel.
Proof.
  revert o w. induction fuel as [|f IH]; intros o w Ho; [reflexivity|].
  cbn [sample_loop].
  assert (Hl : (Z.of_nat (List.length o) <? 3) = true) by (destruct Ho as [-> | ->]; reflexivity).
  rewrite Hl. unfold bind at 1, randint0.
  destruct (rands w) as [|r rs]; [reflexivity|].
  assert (Hj : (Z.to_nat (r mod Z.of_nat (List.length dup_answers)) < 4)%nat).
  { change (Z.of_nat (List.length dup_answers)) with 4. pose proof (Z.mod_pos_bound r 4). lia. }
  destruct (dup_step _ o Hj Ho) as [o' [E Ho']]. rewrite E. apply IH. exact Ho'.
Qed.

(** C8 (code bug): in variable mode with multi-answer acceptance off, the
    pool holds four distinct values (a, b, c, d, under the labels Q, Q, Q,
    R) and three options are requested.  For the drawn pair (Q, a) the
    sampling loop never returns, whatever the draws: drawing d gives the
    options {a, d}, and from there every draw leaves the options as they
    are, since b and c have the label Q and are neither distractors nor
    folded in.  In the model every run ends with [OutOfFuel] when the
    draws or the fuel run out. *)
Theorem sample_loop_never_returns :
  List.length (to_set dup_answers) = 4%nat
  /\ var_opts dup_md = true /\ multiple_answers dup_md = false
  /\ (forall fuel w,
        fst (sample_loop dup_questions dup_answers dup_md 3 fuel (u "Q") [u "a"] [u "a"] w)
        = Err OutOfFuel).
Proof.
  split; [vm_compute; reflexivity|]. split; [reflexivity|]. split; [reflexivity|].
  intros fuel w. apply dup_loop_stuck. left. reflexivity.
Qed.

(** The sampling loop of variable mode: for the drawn pair
    [(question, a0)] at index [i] and a request of [n_opts >= 1] options:
    - every run of the sampling loop that returns gives exactly [n_opts]
      duplicate-free options; the options hold the accepted answers, which
      hold [a0]; an option outside them is the answer of a pair with another
      label; an accepted answer other than [a0] comes from a pair with the
      same label and is folded in only when multi-answer acceptance is on;
    - when multi-answer acceptance is on or the labels are distinct, and
      the pool holds at least [n_opts] distinct values, every state of the
      loop short of [n_opts] options has a draw that adds an option, and
      some sequence of draws ends the loop. *)
Theorem sample_loop_correct (questions answers : list pystr) (md : opts_mode) (n_opts : Z) (i : nat)
    (Hlen : List.length questions = List.length answers)
    (Hi : (i < List.length answers)%nat)
    (Hn : 1 <= n_opts) :
  (forall fuel w o a w',
     sample_loop questions answers md n_opts fuel (nth i questions [])
                 [nth i answers []] [nth i answers []] w = (Ok (o, a), w') ->
     sample_inv questions answers md n_opts (nth i questions []) (nth i answers []) o a
     /\ Z.of_nat (List.length o) = n_opts)
  /\ ((multiple_answers md = true \/ NoDup questions) ->
      n_opts <= Z.of_nat (List.length (to_set answers)) ->
      (forall o a,
         sample_inv questions answers md n_opts (nth i questions []) (nth i answers []) o a ->
         Z.of_nat (List.length o) < n_opts ->
         exists j, (j < List.length answers)%nat
           /\ List.length (fst (sample_step questions answers md (nth i questions []) j o a))
              = S (List.length o))
      /\ (forall ins outs, exists rs o a,
            sample_loop questions answers md n_opts (S (List.length rs)) (nth i questions [])
                        [nth i answers []] [nth i answers []] (World ins rs outs)
            = (Ok (o, a), World ins [] outs)
            /\ Z.of_nat (List.length o) = n_opts)).
Proof.
  assert (Hstart : sample_inv questions answers md n_opts (nth i questions [])
                     (nth i answers []) [nth i answers []] [nth i answers []]).
  { repeat split.
    - repeat constructor. intros [].
    - intros x Hx. exact Hx.
    - now left.
    - cbn. lia.
    - intros x Hx Hxa. contradiction.
    - intros x [-> | []]. now left. }
  split; [|intros Hmd Hpool; split].
  - intros fuel w o a w' Hrun.
    destruct (sample_loop_inv questions answers md n_opts _ _ fuel _ _ w o a w'
                ltac:(lia) Hstart Hrun) as [Hinv Hge].
    split; [exact Hinv|]. destruct Hinv as (_ & _ & _ & Hle & _). lia.
  - intros o a (Hnd & Hinc & Ha0 & _ & _ & _) Hlt.
    apply (sample_progress questions answers md _ i o a Hlen Hi eq_refl); auto; lia.
  - intros ins outs.
    apply (sample_loop_draws questions answers md n_opts i Hlen Hi Hmd Hpool _ _ _ ins outs eq_refl).
    + cbn. lia.
    + now left.
    + repeat constructor. intros [].
Qed.

Lemma sample_loop_correct_witness :
  List.length [u "Q"; u "R"; u "S"] = List.length [u "a"; u "b"; u "c"]
  /\ (0 < List.length [u "a"; u "b"; u "c"])%nat /\ 1 <= 2
  /\ exists rs o a,
       sample_loop [u "Q"; u "R"; u "S"] [u "a"; u "b"; u "c"]
                   (opts_config 2 3 [u "a"; u "b"; u "c"] true true (fun d => Ok d)) 2
                   (S (List.length rs)) (u "Q") [u "a"] [u "a"] (World [] rs [])
       = (Ok (o, a), World [] [] []) /\ Z.of_nat (List.length o) = 2.
Proof.
  assert (Hl : List.length [u "Q"; u "R"; u "S"] = List.length [u "a"; u "b"; u "c"])
    by reflexivity.
  assert (Hi : (0 < List.length [u "a"; u "b"; u "c"])%nat) by (cbn; lia).
  assert (Hn : 1 <= 2) by lia.
  split; [exact Hl | split; [exact Hi | split; [exact Hn |]]].
  destruct (sample_loop_correct [u "Q"; u "R"; u "S"] [u "a"; u "b"; u "c"]
              (opts_config 2 3 [u "a"; u "b"; u "c"] true true (fun d => Ok d)) 2 0 Hl Hi Hn)
    as [_ H].
  assert (Hnd : NoDup [u "Q"; u "R"; u "S"])
    by (repeat constructor; vm_compute; intuition discriminate).
  assert (Hp : 2 <= Z.of_nat (List.length (to_set [u "a"; u "b"; u "c"])))
    by (vm_compute; discriminate).
  exact (proj2 (H (or_intror Hnd) Hp) [] []).
Defined.

(** ** C4 *)

(** The value of a decimal digit string, as [scan_digits] accumulates it. *)
Definition digits_value (ds : pystr) : Z := fold_left (fun a c => 10 * a + (c - 48)) ds 0.

(** The value of a digit string given least significant digit first. *)
Fixpoint rev_value (l : pystr) : Z :=
  match l with [] => 0 | c :: l' => (c - 48) + 10 * rev_value l' end.

Lemma fold_digits_rev l acc :
  fold_left (fun a c => 10 * a + (c - 48)) (rev l) acc
  = acc * 10 ^ Z.of_nat (List.length l) + rev_value l.
Proof.
  induction l as [|c l IH]; cbn [rev List.length rev_value]; [cbn; lia|].
  rewrite fold_left_app, IH. cbn [fold_left].
  rewrite Nat2Z.inj_succ, Z.pow_succ_r by lia. ring.
Qed.

Lemma digits_rev_value fuel n :
  0 <= n < 10 ^ Z.of_nat fuel -> rev_value (digits_rev fuel n) = n.
Proof.
  revert n; induction fuel as [|fuel IH]; intros n Hn; [cbn in *; lia|].
  cbn [digits_rev]. rewrite Nat2Z.inj_succ, Z.pow_succ_r in Hn by lia.
  destruct (n <? 10) eqn:E.
  - cbn [rev_value]. lia.
  - apply Z.ltb_ge in E. cbn [rev_value]. rewrite IH.
    + pose proof (Z.div_mod n 10 ltac:(lia)). lia.
    + split; [apply Z.div_pos; lia|]. apply Z.div_lt_upper_bound; lia.
Qed.

Lemma digits_rev_length fuel n :
  1 <= n < 10 ^ Z.of_nat fuel ->
  10 ^ (Z.of_nat (List.length (digits_rev fuel n)) - 1) <= n
  < 10 ^ Z.of_nat (List.length (digits_rev fuel n)).
Proof.
  revert n; induction fuel as [|fuel IH]; intros n Hn; [cbn in *; lia|].
  cbn [digits_rev]. rewrite Nat2Z.inj_succ, Z.pow_succ_r in Hn by lia.
  destruct (n <? 10) eqn:E.
  - apply Z.ltb_lt in E. cbn. lia.
  - apply Z.ltb_ge in E. cbn [List.length].
    assert (Hd : 1 <= n / 10 < 10 ^ Z.of_nat fuel).
    { split; [apply Z.div_le_lower_bound; lia | apply Z.div_lt_upper_bound; lia]. }
    specialize (IH _ Hd). rewrite Nat2Z.inj_succ.
    set (k := Z.of_nat (List.length (digits_rev fuel (n / 10)))) in *.
    assert (Hk : 1 <= k) by (unfold k; destruct fuel; cbn [digits_rev] in *;
                              [cbn in Hd; lia | destruct (n / 10 <? 10); cbn; lia]).
    replace (Z.succ k - 1) with (Z.succ (k - 1)) by lia.
    rewrite !Z.pow_succ_r by lia.
    pose proof (Z.div_mod n 10 ltac:(lia)). pose proof (Z.mod_pos_bound n 10 ltac:(lia)).
    lia.
Qed.

Lemma nat_to_s_fuel n : 0 <= n -> n < 10 ^ Z.of_nat (S (Z.to_nat (Z.log2 n))).
Proof.
  intros Hn. rewrite Nat2Z.inj_succ, Z2Nat.id by apply Z.log2_nonneg.
  destruct (Z.eq_dec n 0) as [-> | Hn0]; [cbn; lia|].
  pose proof (Z.log2_spec n ltac:(lia)) as [_ H].
  eapply Z.lt_le_trans; [exact H|].
  apply Z.pow_le_mono_l. lia.
Qed.

Lemma nat_to_s_value n : 0 <= n -> digits_value (nat_to_s n) = n.
Proof.
  intros Hn. unfold digits_value, nat_to_s. rewrite fold_digits_rev.
  rewrite digits_rev_value; [lia|]. split; [exact Hn | now apply nat_to_s_fuel].
Qed.

(** * Further properties of the code *)

(** ** [str.strip] *)

Lemma lstrip_idem s : lstrip (lstrip s) = lstrip s.
Proof.
  induction s as [|c s IH]; [reflexivity|]. cbn [lstrip].
  destruct (py_isspace c) eqn:E; [exact IH|]. cbn [lstrip]. now rewrite E.
Qed.

Lemma lstrip_head s c r : lstrip s = c :: r -> py_isspace c = false.
Proof.
  induction s as [|x s IH]; cbn [lstrip]; [discriminate|].
  destruct (py_isspace x) eqn:E; [exact IH|]. intros H. injection H as -> _. exact E.
Qed.

Lemma lstrip_suffix s : exists p, s = p ++ lstrip s.
Proof.
  induction s as [|c s [p Hp]]; [now exists []|]. cbn [lstrip].
  destruct (py_isspace c); [exists (c :: p); cbn; congruence | now exists []].
Qed.

Lemma lstrip_fixed c r : py_isspace c = false -> lstrip (c :: r) = c :: r.
Proof. intros E. cbn [lstrip]. now rewrite E. Qed.

Lemma strip_idem s : strip (strip s) = strip s.
Proof.
  unfold strip.
  remember (lstrip (rev (lstrip s))) as b eqn:Eb.
  destruct b as [|x b'] using rev_ind; [reflexivity|]. clear IHb'.
  destruct (lstrip_suffix (rev (lstrip s))) as [p Hp]. rewrite <- Eb in Hp.
  assert (Ha : lstrip s = x :: rev (p ++ b')).
  { rewrite <- (rev_involutive (lstrip s)), Hp, app_assoc, rev_app_distr. reflexivity. }
  pose proof (lstrip_head _ _ _ Ha) as Hx.
  assert (Hr : lstrip (rev (b' ++ [x])) = rev (b' ++ [x]))
    by (rewrite rev_app_distr; apply lstrip_fixed; exact Hx).
  rewrite Hr, rev_involutive, Eb, lstrip_idem. reflexivity.
Qed.

Lemma lstrip_all_space l : forallb py_isspace l = true -> lstrip l = [].
Proof.
  induction l as [|c l IH]; [reflexivity|]. cbn [forallb lstrip].
  intros H. apply andb_prop in H as [Hc Hl]. rewrite Hc. exact (IH Hl).
Qed.

Lemma strip_all_space l : forallb py_isspace l = true -> strip l = [].
Proof. intros H. unfold strip. rewrite (lstrip_all_space l H). reflexivity. Qed.

Lemma split_go_nonempty sep s cur : split_go sep s cur <> [].
Proof.
  revert cur; induction s as [|c s IH]; intros cur; cbn [split_go]; [discriminate|].
  destruct (is_prefix (rev sep) (c :: cur)); [discriminate | apply IH].
Qed.

Lemma read_input_line_ok w t w' :
  read_input_line w = (Ok t, w') -> t <> [] /\ strip t = t.
Proof.
  unfold read_input_line, bind, input.
  destruct (inputs w) as [|l rest]; [discriminate|].
  destruct (strip l) as [|c r] eqn:E; cbn; intros H; [discriminate|].
  injection H as <- _. split; [discriminate|]. rewrite <- E. apply strip_idem.
Qed.

Lemma read_input_arr_ok multiple w ts w' :
  read_input_arr multiple w = (Ok ts, w') ->
  ts <> [] /\ Forall (fun t => strip t = t) ts
  /\ (multiple = false -> exists t, ts = [t] /\ t <> []).
Proof.
  unfold read_input_arr, bind at 1.
  destruct (read_input_line w) as [[t|e] w1] eqn:E; [|discriminate].
  apply read_input_line_ok in E as [Hne Hst]. unfold ret. intros H. injection H as <- _.
  destruct multiple.
  - split; [|split; [|discriminate]].
    + intros H. apply map_eq_nil in H. exact (split_go_nonempty _ _ _ H).
    + apply Forall_map, Forall_forall. intros x _. apply strip_idem.
  - split; [discriminate|]. split; [now constructor|]. intros _. now exists t.
Qed.

Lemma read_input_arr_blank multiple l rest rs outs :
  forallb py_isspace l = true ->
  read_input_arr multiple (World (l :: rest) rs outs) = (Err InputException, World rest rs outs).
Proof.
  intros H. unfold read_input_arr, read_input_line, bind, input. cbn [inputs rands outputs].
  now rewrite strip_all_space.
Qed.

Lemma choose_opts_blank head choices multiple l rest rs outs :
  forallb py_isspace l = true ->
  exists menu, choose_opts head choices multiple (World (l :: rest) rs outs)
               = (Err InputException, World rest rs (outs ++ [menu])).
Proof.
  intros H. eexists. unfold choose_opts, bind at 1, print. cbn [inputs rands outputs].
  unfold bind at 1, input_fuel. cbn [inputs choose_opts_loop List.length].
  unfold bind at 1. rewrite read_input_arr_blank by exact H. reflexivity.
Qed.

Lemma main_body_blank countries l rest rs outs :
  forallb py_isspace l = true ->
  exists menu, main_body countries (World (l :: rest) rs outs)
               = (Err InputException, World rest rs (outs ++ [INFO_MSG; menu])).
Proof.
  intros H. destruct (choose_opts_blank (u "topic") topics false l rest rs (outs ++ [INFO_MSG]) H)
    as [menu Hm].
  exists menu. unfold main_body, bind at 1, print. cbn [inputs rands outputs].
  unfold bind at 1. rewrite Hm. now rewrite <- app_assoc.
Qed.

Lemma choose_int_loop_range fuel choices lower upper other w z w' :
  choose_int_loop fuel choices lower upper other w = (Ok z, w') ->
  lower <= z <= upper \/ In z other.
Proof.
  revert w; induction fuel as [|f IH]; intros w H; [discriminate|].
  cbn [choose_int_loop] in H. unfold bind at 1 in H.
  destruct (read_input_line w) as [[c|e] w1]; [|discriminate].
  destruct (py_int c) as [k|] eqn:Ek;
    cbv beta iota zeta delta [bind ret raise errmsg print] in H; [|discriminate].
  destruct ((lower <=? k) && (k <=? upper) || existsb (Z.eqb k) other) eqn:Eok;
    cbv beta iota in H; [|exact (IH _ H)].
  injection H as <- _.
  apply orb_prop in Eok as [Eok | Eok].
  - left. apply andb_prop in Eok as [H1 H2]. apply Z.leb_le in H1, H2. lia.
  - right. apply existsb_exists in Eok as [x [Hx Ex]]. apply Z.eqb_eq in Ex. now subst.
Qed.

Lemma choose_int_loop_non_integer f choices lower upper other l rest rs outs :
  strip l <> [] -> py_int (strip l) = None ->
  choose_int_loop (S f) choices lower upper other (World (l :: rest) rs outs)
  = (Err TypeError, World rest rs (outs ++ [u "Error: Only an integer is accepted."])).
Proof.
  intros Hne Hpy. cbn [choose_int_loop].
  cbv beta iota zeta delta [bind ret raise errmsg print read_input_line input].
  cbn [inputs rands outputs].
  destruct (strip l) as [|c r] eqn:E; [contradiction|].
  rewrite Hpy. reflexivity.
Qed.

Lemma choose_int_loop_accept f choices lower upper other l rest rs outs z :
  strip l <> [] -> py_int (strip l) = Some z -> lower <= z <= upper \/ In z other ->
  choose_int_loop (S f) choices lower upper other (World (l :: rest) rs outs)
  = (Ok z, World rest rs outs).
Proof.
  intros Hne Hpy Hz. cbn [choose_int_loop].
  cbv beta iota zeta delta [bind ret raise errmsg print read_input_line input].
  cbn [inputs rands outputs].
  destruct (strip l) as [|c r] eqn:E; [contradiction|].
  rewrite Hpy.
  replace ((lower <=? z) && (z <=? upper) || existsb (Z.eqb z) other) with true.
  - reflexivity.
  - symmetry. apply orb_true_iff. destruct Hz as [Hz | Hz].
    + left. apply andb_true_intro. split; apply Z.leb_le; lia.
    + right. apply existsb_exists. exists z. split; [exact Hz | apply Z.eqb_refl].
Qed.

Lemma choose_int_loop_reject f choices lower upper other l rest rs outs z :
  strip l <> [] -> py_int (strip l) = Some z -> ~ (lower <= z <= upper) -> ~ In z other ->
  choose_int_loop (S f) choices lower upper other (World (l :: rest) rs outs)
  = choose_int_loop f choices lower upper other
      (World rest rs (outs ++ [u "Error: The integer should be one of " ++ choices ++ u "."])).
Proof.
  intros Hne Hpy Hz Ho. cbn [choose_int_loop].
  cbv beta iota zeta delta [bind ret raise errmsg print read_input_line input].
  cbn [inputs rands outputs].
  destruct (strip l) as [|c r] eqn:E; [contradiction|].
  rewrite Hpy.
  replace ((lower <=? z) && (z <=? upper) || existsb (Z.eqb z) other) with false.
  - cbv beta iota. cbn [app]. reflexivity.
  - symmetry. apply orb_false_intro.
    + destruct (Z.leb_spec lower z), (Z.leb_spec z upper); cbn; auto; try lia.
    + apply not_true_iff_false. intros Hex. apply existsb_exists in Hex as [x [Hx Ex]].
      apply Z.eqb_eq in Ex. subst. contradiction.
Qed.

Lemma digit_val_digit c : digit_char c -> digit_val c = Some (c - 48).
Proof.
  unfold digit_char, digit_val, DECIMAL_ZEROS. intros H. cbn [find].
  replace ((48 <=? c) && (c <=? 48 + 9)) with true
    by (symmetry; apply andb_true_intro; split; apply Z.leb_le; lia).
  reflexivity.
Qed.

Lemma digits_go_digits s acc :
  Forall digit_char s ->
  digits_go s acc false = Some (fold_left (fun a c => 10 * a + (c - 48)) s acc).
Proof.
  revert acc; induction s as [|c s IH]; intros acc H; [reflexivity|].
  inversion H as [|? ? Hc Hs]; subst. cbn [digits_go fold_left].
  rewrite digit_val_digit by exact Hc. apply IH. exact Hs.
Qed.

Lemma parse_digits_value s :
  s <> [] -> Forall digit_char s -> parse_digits s = Some (digits_value s).
Proof.
  destruct s as [|c s]; [contradiction|]. intros _ H.
  inversion H as [|? ? Hc Hs]; subst. cbn [parse_digits].
  rewrite digit_val_digit by exact Hc. rewrite digits_go_digits by exact Hs.
  unfold digits_value. cbn [fold_left]. reflexivity.
Qed.

Lemma isspace_digit c : digit_char c -> py_isspace c = false.
Proof.
  intros H. unfold digit_char in H.
  assert (Hc : c = 48 \/ c = 49 \/ c = 50 \/ c = 51 \/ c = 52 \/ c = 53 \/ c = 54
               \/ c = 55 \/ c = 56 \/ c = 57) by lia.
  repeat destruct Hc as [-> | Hc]; try reflexivity. subst. reflexivity.
Qed.

Lemma strip_fixed s :
  (forall c r, s = c :: r -> py_isspace c = false) ->
  (forall c r, rev s = c :: r -> py_isspace c = false) -> strip s = s.
Proof.
  intros H1 H2. unfold strip. destruct s as [|c r]; [reflexivity|].
  rewrite lstrip_fixed by exact (H1 c r eq_refl).
  destruct (rev (c :: r)) as [|c' r'] eqn:E;
    [apply (f_equal (@List.length Z)) in E; rewrite length_rev in E; discriminate|].
  rewrite lstrip_fixed by exact (H2 c' r' eq_refl).
  rewrite <- E. apply rev_involutive.
Qed.

Lemma nat_to_s_last n c r : 0 <= n -> rev (nat_to_s n) = c :: r -> digit_char c.
Proof.
  intros Hn E. destruct (nat_to_s_digits n Hn) as [_ Hd].
  apply Forall_rev in Hd. rewrite E in Hd. now inversion Hd.
Qed.

Lemma strip_z2s z : strip (z2s z) = z2s z.
Proof.
  unfold z2s. destruct (z <? 0) eqn:Ez.
  - apply Z.ltb_lt in Ez. apply strip_fixed.
    + intros c r H. injection H as <- _. reflexivity.
    + intros c r H. cbn [rev] in H.
      destruct (rev (nat_to_s (- z))) as [|c' r'] eqn:E.
      * exfalso. apply (proj1 (nat_to_s_digits (- z) ltac:(lia))).
        rewrite <- (rev_involutive (nat_to_s (- z))), E. reflexivity.
      * cbn in H. injection H as <- _. apply isspace_digit.
        exact (nat_to_s_last (- z) c' r' ltac:(lia) E).
  - apply Z.ltb_ge in Ez. destruct (nat_to_s_digits z Ez) as [Hne Hd]. apply strip_fixed.
    + intros c r H. rewrite H in Hd. inversion Hd. now apply isspace_digit.
    + intros c r H. apply isspace_digit. exact (nat_to_s_last z c r Ez H).
Qed.

Lemma count_digits_digits s : Forall digit_char s -> count_digits s = List.length s.
Proof.
  unfold count_digits. induction s as [|c s IH]; intros H; [reflexivity|].
  inversion H as [|? ? Hc Hs]; subst. cbn [filter List.length].
  rewrite digit_val_digit by exact Hc. cbn [List.length]. rewrite IH by exact Hs. reflexivity.
Qed.

Lemma nat_to_s_length n : 0 <= n < 10 ^ 4300 -> (List.length (nat_to_s n) <= 4300)%nat.
Proof.
  intros [Hn Hlt]. revert Hlt. generalize (Z.pow_le_mono_r 10 4300). generalize (10 ^ 4300).
  intros B HB Hlt.
  destruct (Z.eq_dec n 0) as [->|Hn0]; [cbn; lia|].
  unfold nat_to_s. rewrite length_rev.
  assert (Hn1 : 1 <= n) by lia.
  pose proof (digits_rev_length (S (Z.to_nat (Z.log2 n))) n
                (conj Hn1 (nat_to_s_fuel n Hn))) as [H1 _].
  set (k := List.length (digits_rev (S (Z.to_nat (Z.log2 n))) n)) in *.
  destruct (Nat.le_gt_cases k 4300) as [|Hk]; [assumption|exfalso].
  specialize (HB (Z.of_nat k - 1) ltac:(lia) ltac:(lia)).
  revert H1 HB. generalize (10 ^ (Z.of_nat k - 1)). intros. lia.
Qed.

Lemma count_digits_z2s z : Z.abs z < 10 ^ 4300 -> (count_digits (z2s z) <= 4300)%nat.
Proof.
  intros Hz. unfold z2s. destruct (z <? 0) eqn:Ez.
  - apply Z.ltb_lt in Ez. destruct (nat_to_s_digits (- z) ltac:(lia)) as [_ Hd].
    change (count_digits (45 :: nat_to_s (- z))) with (count_digits (nat_to_s (- z))).
    rewrite count_digits_digits by exact Hd.
    apply nat_to_s_length. revert Hz. generalize (10 ^ 4300). intros B Hz. lia.
  - apply Z.ltb_ge in Ez. destruct (nat_to_s_digits z Ez) as [_ Hd].
    rewrite count_digits_digits by exact Hd.
    apply nat_to_s_length. revert Hz. generalize (10 ^ 4300). intros B Hz. lia.
Qed.

Lemma py_int_z2s z : Z.abs z < 10 ^ 4300 -> py_int (z2s z) = Some z.
Proof.
  intros Hz0. unfold py_int. rewrite strip_z2s.
  replace (4300 <? count_digits (z2s z))%nat with false
    by (symmetry; apply Nat.ltb_ge; apply count_digits_z2s; exact Hz0).
  clear Hz0. unfold z2s. destruct (z <? 0) eqn:Ez.
  - apply Z.ltb_lt in Ez. destruct (nat_to_s_digits (- z) ltac:(lia)) as [Hne Hd].
    cbv beta iota. rewrite parse_digits_value by assumption. cbn [option_map].
    rewrite nat_to_s_value by lia. f_equal. lia.
  - apply Z.ltb_ge in Ez. destruct (nat_to_s_digits z Ez) as [Hne Hd].
    assert (Hp : parse_digits (nat_to_s z) = Some z)
      by (rewrite parse_digits_value by assumption; now rewrite nat_to_s_value).
    revert Hp Hne Hd. destruct (nat_to_s z) as [|c r]; intros Hp Hne Hd; [contradiction|].
    inversion Hd as [|? ? Hc _]; subst. unfold digit_char in Hc.
    assert (H : c = 48 \/ c = 49 \/ c = 50 \/ c = 51 \/ c = 52 \/ c = 53 \/ c = 54
                \/ c = 55 \/ c = 56 \/ c = 57) by lia.
    repeat destruct H as [-> | H]; try exact Hp. subst. exact Hp.
Qed.

Lemma opts_tokens_some choices multiple tokens acc w c w' :
  opts_tokens choices multiple tokens acc w = (Ok (Some c), w') ->
  NoDup acc -> incl acc choices ->
  NoDup c /\ incl c choices /\ (tokens <> [] \/ acc <> [] -> c <> []).
Proof.
  revert acc w; induction tokens as [|t ts IH]; intros acc w H Hnd Hinc.
  - cbn [opts_tokens] in H. unfold ret in H. injection H as <- _.
    split; [exact Hnd | split; [exact Hinc |]]. intros [H | H]; [congruence | exact H].
  - cbn [opts_tokens] in H.
    destruct (py_isdigit t); [|cbv beta iota delta [bind errmsg print ret] in H; discriminate].
    destruct (py_int t) as [n|]; [|discriminate].
    cbv zeta in H.
    destruct ((0 <=? n - 1) && (n - 1 <? Z.of_nat (List.length choices))) eqn:Er;
      [|cbv beta iota delta [bind errmsg print ret] in H; discriminate].
    apply andb_prop in Er as [E1 E2]. apply Z.leb_le in E1. apply Z.ltb_lt in E2.
    assert (Hx : In (nth (Z.to_nat (n - 1)) choices []) choices) by (apply nth_In; lia).
    destruct (IH _ _ H (set_add_nodup _ _ Hnd)) as (Hc1 & Hc2 & Hc3).
    + intros y Hy. apply set_add_in in Hy as [-> | Hy]; auto.
    + split; [exact Hc1 | split; [exact Hc2 |]]. intros _. apply Hc3. right.
      intros He.
      assert (Hin : In (nth (Z.to_nat (n - 1)) choices [])
                       (set_add (nth (Z.to_nat (n - 1)) choices []) acc))
        by (apply set_add_in; now left).
      rewrite He in Hin. exact Hin.
Qed.

Lemma opts_tokens_single choices multiple t w c w' :
  opts_tokens choices multiple [t] [] w = (Ok (Some c), w') -> exists x, c = [x].
Proof.
  cbn [opts_tokens]. destruct (py_isdigit t);
    [|cbv beta iota delta [bind errmsg print ret]; discriminate].
  destruct (py_int t) as [n|]; [|discriminate]. cbv zeta.
  destruct ((0 <=? n - 1) && (n - 1 <? Z.of_nat (List.length choices)));
    [|cbv beta iota delta [bind errmsg print ret]; discriminate].
  cbn [opts_tokens]. unfold ret. intros H. injection H as <- _.
  eexists. reflexivity.
Qed.

Lemma choose_opts_loop_result fuel choices multiple w s w' :
  choose_opts_loop fuel choices multiple w = (Ok s, w') ->
  exists sel, s = arr2str sel /\ sel <> [] /\ NoDup sel /\ incl sel choices
              /\ (multiple = false -> exists x, sel = [x]).
Proof.
  revert w; induction fuel as [|f IH]; intros w H; [discriminate|].
  cbn [choose_opts_loop] in H. unfold bind at 1 in H.
  destruct (read_input_arr multiple w) as [[ts|e] w1] eqn:Er; [|discriminate].
  apply read_input_arr_ok in Er as (Hts & _ & Hsingle).
  unfold bind in H.
  destruct (opts_tokens choices multiple ts [] w1) as [[[c|]|e] w2] eqn:Eo; try discriminate.
  - unfold ret in H. injection H as <- _.
    destruct (opts_tokens_some _ _ _ _ _ _ _ Eo (NoDup_nil _) (incl_nil_l _)) as (H1 & H2 & H3).
    exists c. split; [reflexivity|]. split; [apply H3; now left|].
    split; [exact H1 | split; [exact H2 |]].
    intros Hm. destruct (Hsingle Hm) as [t [-> _]]. exact (opts_tokens_single _ _ _ _ _ _ Eo).
  - exact (IH _ H).
Qed.

Lemma choose_opts_result head choices multiple w s w' :
  choose_opts head choices multiple w = (Ok s, w') ->
  exists sel, s = arr2str sel /\ sel <> [] /\ NoDup sel /\ incl sel choices
              /\ (multiple = false -> exists x, sel = [x]).
Proof.
  cbv beta iota zeta delta [choose_opts bind print input_fuel].
  apply choose_opts_loop_result.
Qed.

Lemma z2s_nonempty z : z2s z <> [].
Proof.
  unfold z2s. destruct (z <? 0) eqn:E; [discriminate|].
  apply Z.ltb_ge in E. exact (proj1 (nat_to_s_digits z E)).
Qed.

Lemma arr2str_single x : arr2str [x] = x.
Proof. reflexivity. Qed.

(** [read_input(True, multiple)] returns at least one token and every token
    is stripped; without [multiple] it returns exactly one, nonempty token. *)
Theorem read_input_arr_tokens multiple w ts w' (H : read_input_arr multiple w = (Ok ts, w')) :
  ts <> [] /\ Forall (fun t => strip t = t) ts
  /\ (multiple = false -> exists t, ts = [t] /\ t <> []).
Proof. exact (read_input_arr_ok multiple w ts w' H). Qed.

Lemma read_input_arr_tokens_witness :
  read_input_arr true (World [u " 1, 2 ,,3"] [] [])
  = (Ok [u "1"; u "2"; []; u "3"], World [] [] [])
  /\ [u "1"; u "2"; []; u "3"] <> [] /\ Forall (fun t => strip t = t) [u "1"; u "2"; []; u "3"]
  /\ (true = false -> exists t, [u "1"; u "2"; []; u "3"] = [t] /\ t <> []).
Proof.
  assert (H : read_input_arr true (World [u " 1, 2 ,,3"] [] [])
              = (Ok [u "1"; u "2"; []; u "3"], World [] [] []))
    by (vm_compute; reflexivity).
  split; [exact H | exact (read_input_arr_tokens _ _ _ _ H)].
Defined.

(** An input line made only of whitespace at the first prompt ends
    [main] normally: it prints the info message and the topic menu,
    consumes the line and returns. *)
Theorem main_blank_line_exits countries l rest rs outs
    (Hl : forallb py_isspace l = true) :
  exists menu, main countries (World (l :: rest) rs outs)
               = (Ok tt, World rest rs (outs ++ [INFO_MSG; menu])).
Proof.
  destruct (main_body_blank countries l rest rs outs Hl) as [menu Hm].
  exists menu. unfold main, try_except. rewrite Hm. reflexivity.
Qed.

Lemma main_blank_line_exits_witness :
  forallb py_isspace (u "  ") = true
  /\ exists menu, main sample_countries (World [u "  "; u "1"] [] [])
                  = (Ok tt, World [u "1"] [] ([] ++ [INFO_MSG; menu])).
Proof.
  assert (Hl : forallb py_isspace (u "  ") = true) by reflexivity.
  split; [exact Hl | exact (main_blank_line_exits sample_countries (u "  ") [u "1"] [] [] Hl)].
Defined.

(** The integer [choose_int] returns lies between the bounds or is one of
    the other accepted values. *)
Theorem choose_int_result_in_range head lower upper other w z w'
    (H : choose_int head lower upper other w = (Ok z, w')) :
  lower <= z <= upper \/ In z other.
Proof.
  revert H. cbv beta iota zeta delta [choose_int bind print input_fuel].
  apply choose_int_loop_range.
Qed.

Lemma choose_int_result_in_range_witness :
  choose_int (u "n") 2 5 [0] (World [u "9"; u "0"] [] [])
  = (Ok 0, snd (choose_int (u "n") 2 5 [0] (World [u "9"; u "0"] [] [])))
  /\ (2 <= 0 <= 5 \/ In 0 [0]).
Proof.
  assert (H : choose_int (u "n") 2 5 [0] (World [u "9"; u "0"] [] [])
              = (Ok 0, snd (choose_int (u "n") 2 5 [0] (World [u "9"; u "0"] [] []))))
    by (vm_compute; reflexivity).
  split; [exact H | exact (choose_int_result_in_range _ _ _ _ _ _ _ H)].
Defined.

(** A nonblank line that is not an integer makes [choose_int] print
    'Error: Only an integer is accepted.' and then fail with a
    [TypeError] (the comparison of line 150 with the [str] still bound to
    [choice]) instead of asking again. *)
Theorem choose_int_non_integer_type_error head lower upper other l rest rs outs
    (Hne : strip l <> []) (Hpy : py_int (strip l) = None) :
  exists prompt, choose_int head lower upper other (World (l :: rest) rs outs)
                 = (Err TypeError,
                    World rest rs (outs ++ [prompt; u "Error: Only an integer is accepted."])).
Proof.
  eexists. cbv beta iota zeta delta [choose_int bind print input_fuel].
  cbn [inputs rands outputs List.length].
  rewrite choose_int_loop_non_integer by assumption. rewrite <- app_assoc. reflexivity.
Qed.

Lemma choose_int_non_integer_type_error_witness :
  strip (u " two ") <> [] /\ py_int (strip (u " two ")) = None
  /\ exists prompt, choose_int (u "n") 2 5 [] (World [u " two "; u "3"] [] [])
       = (Err TypeError,
          World [u "3"] [] ([] ++ [prompt; u "Error: Only an integer is accepted."])).
Proof.
  assert (H1 : strip (u " two ") <> []) by (vm_compute; discriminate).
  assert (H2 : py_int (strip (u " two ")) = None) by (vm_compute; reflexivity).
  split; [exact H1 | split; [exact H2 |]].
  exact (choose_int_non_integer_type_error (u "n") 2 5 [] (u " two ") [u "3"] [] [] H1 H2).
Defined.

(** An integer outside the accepted values is answered with
    'Error: The integer should be one of ...' listing the range, and
    [choose_int] asks again: an accepted integer on the next line is
    returned. *)
Theorem choose_int_reprompts head lower upper other l1 l2 rest rs outs z1 z2
    (Hne1 : strip l1 <> []) (Hpy1 : py_int (strip l1) = Some z1)
    (Hout : ~ (lower <= z1 <= upper)) (Hother : ~ In z1 other)
    (Hne2 : strip l2 <> []) (Hpy2 : py_int (strip l2) = Some z2)
    (Hin : lower <= z2 <= upper \/ In z2 other) :
  exists prompt more,
    choose_int head lower upper other (World (l1 :: l2 :: rest) rs outs)
    = (Ok z2, World rest rs (outs ++ [prompt; u "Error: The integer should be one of "
                                              ++ z2s lower ++ u ".." ++ z2s upper ++ more
                                              ++ u "."])).
Proof.
  eexists. exists (match other with [] => [] | _ => u " or " ++ arr2str (map z2s other) end).
  cbv beta iota zeta delta [choose_int bind print input_fuel].
  cbn [inputs rands outputs List.length].
  rewrite choose_int_loop_reject with (z := z1) by assumption.
  rewrite choose_int_loop_accept with (z := z2) by assumption.
  rewrite <- app_assoc. cbn [app]. do 4 f_equal.
  destruct other; rewrite ?app_nil_r, <- ?app_assoc; reflexivity.
Qed.

Lemma choose_int_reprompts_witness :
  strip (u "9") <> [] /\ py_int (strip (u "9")) = Some 9 /\ ~ (2 <= 9 <= 5) /\ ~ In 9 [0]
  /\ strip (u "0") <> [] /\ py_int (strip (u "0")) = Some 0 /\ (2 <= 0 <= 5 \/ In 0 [0])
  /\ exists prompt more,
       choose_int (u "n") 2 5 [0] (World [u "9"; u "0"] [] [])
       = (Ok 0, World [] [] ([] ++ [prompt; u "Error: The integer should be one of "
                                            ++ z2s 2 ++ u ".." ++ z2s 5 ++ more ++ u "."])).
Proof.
  assert (H1 : strip (u "9") <> []) by (vm_compute; discriminate).
  assert (H2 : py_int (strip (u "9")) = Some 9) by (vm_compute; reflexivity).
  assert (H3 : ~ (2 <= 9 <= 5)) by lia.
  assert (H4 : ~ In 9 [0]) by (cbn; lia).
  assert (H5 : strip (u "0") <> []) by (vm_compute; discriminate).
  assert (H6 : py_int (strip (u "0")) = Some 0) by (vm_compute; reflexivity).
  assert (H7 : 2 <= 0 <= 5 \/ In 0 [0]) by (cbn; lia).
  refine (conj H1 (conj H2 (conj H3 (conj H4 (conj H5 (conj H6 (conj H7 _))))))).
  exact (choose_int_reprompts (u "n") 2 5 [0] (u "9") (u "0") [] [] [] 9 0 H1 H2 H3 H4 H5 H6 H7).
Defined.

(** Typing an accepted integer (in the range or one of [other]) as Python
    prints it ([str(z)]) is accepted at once: [int] reads back what [str]
    writes, up to the 4300 digits [int] accepts. *)
Theorem choose_int_accepts_printed head lower upper other z rest rs outs
    (Hz : lower <= z <= upper \/ In z other) (Hb : Z.abs z < 10 ^ 4300) :
  exists prompt, choose_int head lower upper other (World (z2s z :: rest) rs outs)
                 = (Ok z, World rest rs (outs ++ [prompt])).
Proof.
  eexists. cbv beta iota zeta delta [choose_int bind print input_fuel].
  cbn [inputs rands outputs List.length].
  rewrite choose_int_loop_accept with (z := z);
    [reflexivity | rewrite strip_z2s; apply z2s_nonempty | rewrite strip_z2s; apply py_int_z2s, Hb | exact Hz].
Qed.

Lemma choose_int_accepts_printed_witness :
  (2 <= -1 <= 5 \/ In (-1) [0; -1]) /\ Z.abs (-1) < 10 ^ 4300
  /\ exists prompt, choose_int (u "n") 2 5 [0; -1] (World [z2s (-1)] [] [])
                    = (Ok (-1), World [] [] ([] ++ [prompt])).
Proof.
  assert (H : 2 <= -1 <= 5 \/ In (-1) [0; -1]) by (cbn; lia).
  assert (Hb : Z.abs (-1) < 10 ^ 4300) by (vm_compute; reflexivity).
  split; [exact H | split; [exact Hb |]].
  exact (choose_int_accepts_printed (u "n") 2 5 [0; -1] (-1) [] [] [] H Hb).
Defined.

(** [choose_opts] returns [arr2str] of a nonempty set of the offered
    choices: the chosen choices, sorted, each once, joined by ', '. *)
Theorem choose_opts_returns_choices head choices multiple w s w'
    (H : choose_opts head choices multiple w = (Ok s, w')) :
  exists sel, s = arr2str sel /\ sel <> [] /\ NoDup sel /\ incl sel choices.
Proof.
  destruct (choose_opts_result head choices multiple w s w' H) as (sel & H1 & H2 & H3 & H4 & _).
  exists sel. auto.
Qed.

Lemma choose_opts_returns_choices_witness :
  choose_opts (u "x") [u "b"; u "a"; u "c"] true (World [u "2, 1,2"] [] [])
  = (Ok (u "a, b"), snd (choose_opts (u "x") [u "b"; u "a"; u "c"] true (World [u "2, 1,2"] [] [])))
  /\ exists sel, u "a, b" = arr2str sel /\ sel <> [] /\ NoDup sel
                 /\ incl sel [u "b"; u "a"; u "c"].
Proof.
  assert (H : choose_opts (u "x") [u "b"; u "a"; u "c"] true (World [u "2, 1,2"] [] [])
              = (Ok (u "a, b"), snd (choose_opts (u "x") [u "b"; u "a"; u "c"] true
                                                 (World [u "2, 1,2"] [] []))))
    by (vm_compute; reflexivity).
  split; [exact H | exact (choose_opts_returns_choices _ _ _ _ _ _ H)].
Defined.

(** In single-choice mode [choose_opts] returns one of the offered
    choices, unchanged. *)
Theorem choose_opts_single_returns_choice head choices w s w'
    (H : choose_opts head choices false w = (Ok s, w')) :
  In s choices.
Proof.
  destruct (choose_opts_result head choices false w s w' H) as (sel & -> & _ & _ & Hinc & Hs).
  destruct (Hs eq_refl) as [x ->]. rewrite arr2str_single. apply Hinc. now left.
Qed.

Lemma choose_opts_single_returns_choice_witness :
  choose_opts (u "x") [u "no"; u "yes"] false (World [u "x"; u "3"; u " 2 "] [] [])
  = (Ok (u "yes"), snd (choose_opts (u "x") [u "no"; u "yes"] false
                                    (World [u "x"; u "3"; u " 2 "] [] [])))
  /\ In (u "yes") [u "no"; u "yes"].
Proof.
  assert (H : choose_opts (u "x") [u "no"; u "yes"] false (World [u "x"; u "3"; u " 2 "] [] [])
              = (Ok (u "yes"), snd (choose_opts (u "x") [u "no"; u "yes"] false
                                                (World [u "x"; u "3"; u " 2 "] [] []))))
    by (vm_compute; reflexivity).
  split; [exact H | exact (choose_opts_single_returns_choice _ _ _ _ _ H)].
Defined.

(** [arr2str] depends only on the set of strings it is given: two
    duplicate-free lists with the same elements give the same string. *)
Theorem arr2str_order_independent (l1 l2 : list pystr)
    (H1 : NoDup l1) (H2 : NoDup l2) (H : forall x, In x l1 <-> In x l2) :
  arr2str l1 = arr2str l2.
Proof.
  unfold arr2str. f_equal.
  apply strongly_sorted_unique; try (apply sorted_str_sorted; assumption).
  intros x. rewrite !sorted_str_in. apply H.
Qed.

Lemma arr2str_order_independent_witness :
  NoDup [u "b"; u "a"; u "c"] /\ NoDup [u "c"; u "a"; u "b"]
  /\ (forall x, In x [u "b"; u "a"; u "c"] <-> In x [u "c"; u "a"; u "b"])
  /\ arr2str [u "b"; u "a"; u "c"] = arr2str [u "c"; u "a"; u "b"].
Proof.
  assert (H1 : NoDup [u "b"; u "a"; u "c"])
    by (repeat constructor; vm_compute; intuition discriminate).
  assert (H2 : NoDup [u "c"; u "a"; u "b"])
    by (repeat constructor; vm_compute; intuition discriminate).
  assert (H : forall x, In x [u "b"; u "a"; u "c"] <-> In x [u "c"; u "a"; u "b"])
    by (intros x; cbn; tauto).
  refine (conj H1 (conj H2 (conj H _))).
  exact (arr2str_order_independent _ _ H1 H2 H).
Defined.
(** [exponent(n)] for a number read by [float]: for a finite nonzero
    double it returns the [e] in -324..308 with [10**e <= abs(n) < 10**(e+1)],
    [10**e] being the value the loops compare with (the [int] [10**e], or
    the double [10.0**e] for [e < 0]); for zero it returns [-inf], and it
    never returns [inf]. *)
Theorem exponent_bounds (v : pyval) (q : Q) (Hv : py_float v = Ok (FFin q)) :
  match exponent (FFin q) with
  | EFin e => (pow10f e <= Qabs q < pow10f (e + 1))%Q /\ -324 <= e <= 308
  | ENegInf => (q == 0)%Q
  | EInf => False
  end.
Proof.
  destruct (Qeq_bool q 0) eqn:E.
  - apply Qeq_bool_iff in E. unfold exponent.
    assert (E' : Qeq_bool (Qabs q) 0 = true) by (apply Qeq_bool_iff; rewrite E; reflexivity).
    rewrite E'. exact E.
  - destruct (exponent_spec q E (py_float_fin v q Hv)) as [e [He [H1 H2]]].
    rewrite He. split; assumption.
Qed.

(** ['1e-6'] is read as the double [10.0**-6] itself, so its exponent is
    -6. *)
Lemma exponent_bounds_witness :
  exists q, py_float (VStr (u "1e-6")) = Ok (FFin q) /\ exponent (FFin q) = EFin (-6) /\
  (pow10f (-6) <= Qabs q < pow10f (-6 + 1))%Q /\ -324 <= -6 <= 308.
Proof.
  set (q := match py_float (VStr (u "1e-6")) with Ok (FFin q) => q | _ => 0%Q end).
  exists q.
  assert (Hv : py_float (VStr (u "1e-6")) = Ok (FFin q)) by (vm_compute; reflexivity).
  assert (He : exponent (FFin q) = EFin (-6)) by (vm_compute; reflexivity).
  pose proof (exponent_bounds (VStr (u "1e-6")) q Hv) as H. rewrite He in H.
  split; [exact Hv|]. split; [exact He | exact H].
Defined.

Lemma assoc_in {A} c (t : list (Z * A)) v : assoc c t = Some v -> In (c, v) t.
Proof.
  induction t as [|[k x] t IH]; cbn; [discriminate|].
  destruct (Z.eqb_spec k c) as [-> | _]; [intros H; injection H as ->; now left|].
  intros H. right. exact (IH H).
Qed.

Lemma lower_table_values :
  forallb (fun kv => forallb (fun d => negb ((65 <=? d) && (d <=? 90))) (snd kv)) lower_table
  = true.
Proof. vm_compute. reflexivity. Qed.

Lemma lower_table_upper :
  forallb (fun k => match assoc k lower_table with Some _ => true | None => false end)
          (map (fun i => 65 + Z.of_nat i) (seq 0 26)) = true.
Proof. vm_compute. reflexivity. Qed.

Lemma lower_char_no_upper c d : In d (lower_char c) -> ~ (65 <= d <= 90).
Proof.
  unfold lower_char. destruct (assoc c lower_table) as [v|] eqn:E.
  - apply assoc_in in E. intros Hd.
    pose proof (proj1 (forallb_forall _ _) lower_table_values _ E) as Hv. cbn [snd] in Hv.
    pose proof (proj1 (forallb_forall _ _) Hv d Hd) as Hdv.
    destruct (Z.leb_spec 65 d), (Z.leb_spec d 90); cbn in Hdv; try discriminate; lia.
  - intros [-> | []] Hc.
    assert (Hin : In d (map (fun i => 65 + Z.of_nat i) (seq 0 26))).
    { apply in_map_iff. exists (Z.to_nat (d - 65)). split; [lia|].
      apply in_seq. lia. }
    pose proof (proj1 (forallb_forall _ _) lower_table_upper d Hin) as Hu.
    cbv beta in Hu. rewrite E in Hu. discriminate.
Qed.


(** The text [adjust_str] returns has no two consecutive spaces. *)
Theorem adjust_str_no_double_space (s : pystr) : contains two_spaces (adjust_str s) = false.
Proof. unfold adjust_str. apply collapse_loop_no_double. lia. Qed.

(** The text [adjust_str] returns has no ASCII capital letter: answers are
    compared case-insensitively. *)
Theorem adjust_str_no_ascii_capital (s : pystr) : Forall (fun d => ~ (65 <= d <= 90)) (adjust_str s).
Proof.
  apply Forall_forall. intros d Hd. unfold adjust_str in Hd.
  apply collapse_loop_in in Hd as [Hd | ->]; [|lia].
  unfold py_lower in Hd. apply in_flat_map in Hd as [c [_ Hc]].
  exact (lower_char_no_upper c d Hc).
Qed.

Lemma derive_pairs_acc cfg name condition ask_topic cs (qs as_ qs' as' : list pystr) :
  derive_pairs cfg name condition ask_topic cs qs as_ = Ok (qs', as') ->
  (List.length qs' + List.length as_ = List.length as' + List.length qs)%nat
  /\ (List.length qs' <= List.length qs + List.length cs)%nat
  /\ (Forall (fun d => d <> []) (if ask_topic then as_ else qs) ->
      Forall (fun d => d <> []) (if ask_topic then as' else qs')).
Proof.
  revert qs as_; induction cs as [|c cs IH]; intros qs as_ H; cbn [derive_pairs] in H.
  - injection H as <- <-. cbn. repeat split; [lia | lia | auto].
  - destruct (condition c);
      [|destruct (IH _ _ H) as (H1 & H2 & H3); cbn [List.length]; repeat split; auto; lia].
    destruct (get_field c (t_key cfg)) as [data|e]; [|discriminate].
    destruct (t_check cfg data) as [[|]|e]; [| |discriminate];
      [|destruct (IH _ _ H) as (H1 & H2 & H3); cbn [List.length]; repeat split; auto; lia].
    destruct (t_convert cfg data) as [d|e]; [|discriminate].
    assert (Hd : match d with [] => NONE | _ => d end <> []) by (destruct d; discriminate).
    destruct ask_topic; destruct (IH _ _ H) as (H1 & H2 & H3);
      rewrite !length_app in *; cbn [List.length] in *; repeat split; try lia;
      intros Hf; apply H3; apply Forall_app; split; auto.
Qed.

(** The loop of lines 285-295 fills [questions] and [answers] in step: the
    two lists have the same length, at most one entry per country, and the
    converted data side never holds an empty string ([NONE] stands in for
    it). *)
Theorem derive_pairs_aligned cfg name condition ask_topic cs (qs as_ : list pystr)
    (H : derive_pairs cfg name condition ask_topic cs [] [] = Ok (qs, as_)) :
  List.length qs = List.length as_ /\ (List.length qs <= List.length cs)%nat
  /\ Forall (fun d => d <> []) (if ask_topic then as_ else qs).
Proof.
  destruct (derive_pairs_acc cfg name condition ask_topic cs [] [] qs as_ H) as (H1 & H2 & H3).
  cbn [List.length] in *. split; [lia | split; [lia |]].
  apply H3. destruct ask_topic; constructor.
Qed.

Lemma derive_pairs_aligned_witness :
  derive_pairs (topic_config sample_countries (u "borders")) (u "common") (fun _ => true) true
               sample_countries [] []
  = Ok ([u "Aland"; u "Belgium"; u "Cmr"], [u "-"; u "Cmr"; u "Belgium"])
  /\ List.length [u "Aland"; u "Belgium"; u "Cmr"] = List.length [u "-"; u "Cmr"; u "Belgium"]
  /\ (List.length [u "Aland"; u "Belgium"; u "Cmr"] <= List.length sample_countries)%nat
  /\ Forall (fun d => d <> []) (if true then [u "-"; u "Cmr"; u "Belgium"]
                                else [u "Aland"; u "Belgium"; u "Cmr"]).
Proof.
  assert (H : derive_pairs (topic_config sample_countries (u "borders")) (u "common")
                           (fun _ => true) true sample_countries [] []
              = Ok ([u "Aland"; u "Belgium"; u "Cmr"], [u "-"; u "Cmr"; u "Belgium"]))
    by (vm_compute; reflexivity).
  split; [exact H | exact (derive_pairs_aligned _ _ _ _ _ _ _ H)].
Defined.

Lemma map_res_err {A B} (f : A -> res B) l e :
  map_res f l = Err e -> exists x, In x l /\ f x = Err e.
Proof.
  induction l as [|x l IH]; cbn [map_res]; [discriminate|].
  destruct (f x) as [y|e'] eqn:Ef.
  - destruct (map_res f l) as [ys|e']; [discriminate|].
    intros H. injection H as ->. destruct (IH eq_refl) as [z [Hz Hfz]].
    exists z. split; [right; exact Hz | exact Hfz].
  - intros H. injection H as ->. exists x. split; [now left | exact Ef].
Qed.

Lemma map_res_err_some {A B} (f : A -> res B) l x e :
  In x l -> f x = Err e -> exists e', map_res f l = Err e'.
Proof.
  induction l as [|y l IH]; [intros []|]. intros [-> | Hx] Hf; cbn [map_res].
  - rewrite Hf. now exists e.
  - destruct (f y); [|eauto]. destruct (IH Hx Hf) as [e' ->]. now exists e'.
Qed.

Lemma find_none_false {A} (f : A -> bool) l : find f l = None -> forall x, In x l -> f x = false.
Proof.
  induction l as [|y l IH]; cbn; [intros _ _ []|].
  destruct (f y) eqn:E; [discriminate|]. intros H x [-> | Hx]; auto.
Qed.

Lemma code2country_spec countries code :
  (code2country countries code = Err KeyError
   <-> ~ exists c, In c countries /\ cca3 c = code)
  /\ forall e, code2country countries code = Err e -> e = KeyError.
Proof.
  unfold code2country. destruct (find (fun c => str_eqb (cca3 c) code) (rev countries)) eqn:E.
  - apply find_some in E as [Hin Heq]. apply str_eqb_eq in Heq. apply in_rev in Hin.
    split; [|intros e He; discriminate]. split; [intros He; discriminate|].
    intros Hn. exfalso. eauto.
  - split; [|intros e He; now injection He]. split; [|reflexivity]. intros _ [c [Hc Hcode]].
    pose proof (find_none_false _ _ E c (proj1 (in_rev _ _) Hc)) as Hf.
    cbv beta in Hf. rewrite Hcode in Hf.
    assert (Ht : str_eqb code code = true) by now apply str_eqb_eq. congruence.
Qed.

(** For the topic 'borders', converting a country's list of border codes
    fails with a [KeyError] exactly when one of the codes is the
    three-letter code of no country, and fails with nothing else. *)
Theorem borders_convert_key_error countries codes :
  (t_convert (topic_config countries (u "borders")) (JList codes) = Err KeyError
   <-> exists code, In code codes /\ ~ exists c, In c countries /\ cca3 c = code)
  /\ forall e, t_convert (topic_config countries (u "borders")) (JList codes) = Err e ->
               e = KeyError.
Proof.
  change (t_convert (topic_config countries (u "borders")) (JList codes))
    with (match map_res (code2country countries) codes with
          | Ok names => Ok (arr2str names)
          | Err e => Err e
          end).
  split.
  - split.
    + destruct (map_res (code2country countries) codes) as [names|e] eqn:E; [discriminate|].
      intros H. injection H as ->. apply map_res_err in E as [code [Hin Hc]].
      exists code. split; [exact Hin|]. now apply code2country_spec.
    + intros [code [Hin Hn]].
      apply (proj2 (proj1 (code2country_spec countries code))) in Hn.
      destruct (map_res_err_some _ _ _ _ Hin Hn) as [e' He']. rewrite He'.
      apply map_res_err in He' as [code' [_ Hc']].
      now rewrite (proj2 (code2country_spec countries code') e' Hc').
  - intros e. destruct (map_res (code2country countries) codes) as [names|e'] eqn:E;
      [discriminate|]. intros H. injection H as <-.
    apply map_res_err in E as [code [_ Hc]]. exact (proj2 (code2country_spec countries code) e' Hc).
Qed.

Lemma pair_eqb_eq (x p : pystr * pystr) :
  str_eqb (fst x) (fst p) && str_eqb (snd x) (snd p) = true <-> x = p.
Proof.
  destruct x as [a b], p as [c d]. cbn [fst snd]. rewrite andb_true_iff, !str_eqb_eq.
  split; [intros [-> ->]; reflexivity | intros H; injection H as -> ->; auto].
Qed.

Lemma remove_pair_match p l :
  match remove_pair p l with
  | Ok l' => exists l1 l2, l = l1 ++ p :: l2 /\ l' = l1 ++ l2 /\ ~ In p l1
  | Err e => e = ValueError /\ ~ In p l
  end.
Proof.
  induction l as [|x l IH]; cbn [remove_pair]; [split; [reflexivity | intros []]|].
  destruct (str_eqb (fst x) (fst p) && str_eqb (snd x) (snd p)) eqn:E.
  - apply pair_eqb_eq in E. subst x. exists [], l. cbn. auto.
  - assert (Hx : x <> p) by (intros ->; rewrite (proj2 (pair_eqb_eq p p) eq_refl) in E; discriminate).
    destruct (remove_pair p l) as [r|e].
    + destruct IH as (l1 & l2 & -> & -> & Hn). exists (x :: l1), l2.
      split; [reflexivity | split; [reflexivity |]]. intros [H | H]; [congruence | contradiction].
    + destruct IH as [-> Hn]. split; [reflexivity|]. intros [H | H]; [congruence | contradiction].
Qed.

(** [questionnaire.remove((question, answer))] deletes the first
    occurrence of the pair and keeps the order of the others; when the
    pair is absent it raises [ValueError] and nothing else. *)
Theorem remove_pair_removes_first (p : pystr * pystr) l :
  match remove_pair p l with
  | Ok l' => exists l1 l2, l = l1 ++ p :: l2 /\ l' = l1 ++ l2 /\ ~ In p l1
  | Err e => e = ValueError /\ ~ In p l
  end.
Proof. exact (remove_pair_match p l). Qed.

(** The removal loop of lines 345-346 deletes one pair of the
    questionnaire per accepted answer, or raises [ValueError]. *)
Theorem remove_answers_length question (answers : list pystr) questionnaire :
  match remove_answers question answers questionnaire with
  | Ok q' => (List.length q' + List.length answers = List.length questionnaire)%nat
  | Err e => e = ValueError
  end.
Proof.
  revert questionnaire; induction answers as [|a rest IH]; intros q; cbn [remove_answers].
  - cbn. lia.
  - pose proof (remove_pair_match (question, a) q) as Hr.
    destruct (remove_pair (question, a) q) as [q1|e]; [|exact (proj1 Hr)].
    destruct Hr as (l1 & l2 & -> & -> & _). specialize (IH (l1 ++ l2)).
    destruct (remove_answers question rest (l1 ++ l2)); [|exact IH].
    rewrite !length_app in *. cbn [List.length] in *. lia.
Qed.

Lemma bind_ok_inv {A B} (m : M A) (k : A -> M B) w b w' :
  bind m k w = (Ok b, w') -> exists a w1, m w = (Ok a, w1) /\ k a w1 = (Ok b, w').
Proof. unfold bind. destruct (m w) as [[a|e] w1]; [eauto | discriminate]. Qed.

(** The mistake counter of the quiz loop never decreases. *)
Theorem quiz_loop_mistakes_monotone questions answers topic conjunction ask_topic md n_opts
    tot_n_questions fuel questionnaire n_mistakes w m w'
    (H : quiz_loop questions answers topic conjunction ask_topic md n_opts tot_n_questions
                   fuel questionnaire n_mistakes w = (Ok m, w')) :
  n_mistakes <= m.
Proof.
  revert questionnaire n_mistakes w H; induction fuel as [|f IH];
    intros q n w H; cbn [quiz_loop] in H; [discriminate|].
  destruct q as [|pq q0]; [unfold ret in H; injection H as <- _; lia|].
  apply bind_ok_inv in H as (idx & w1 & _ & H).
  destruct (nth (Z.to_nat idx) (pq :: q0) ([], [])) as [question answer].
  apply bind_ok_inv in H as ([choice answer'] & w2 & _ & H).
  apply bind_ok_inv in H as (a1 & w3 & _ & H).
  apply bind_ok_inv in H as (a2 & w4 & _ & H).
  destruct (str_eqb a1 a2).
  - apply bind_ok_inv in H as (q' & w5 & _ & H).
    apply bind_ok_inv in H as (t & w6 & _ & H). exact (IH _ _ _ H).
  - apply bind_ok_inv in H as (t & w5 & _ & H). specialize (IH _ _ _ H). lia.
Qed.

Lemma quiz_loop_mistakes_monotone_witness :
  quiz_loop [u "Q"; u "R"] [u "a"; u "b"] (u "capital") (u "with") true
            (opts_config 0 2 [u "a"; u "b"] true false (fun d => Ok (adjust_str d))) 0 2
            4 (combine [u "Q"; u "R"] [u "a"; u "b"]) 0 (World [u "b"; u "A"; u "b"] [0; 0; 0] [])
  = (Ok 1, snd (quiz_loop [u "Q"; u "R"] [u "a"; u "b"] (u "capital") (u "with") true
                  (opts_config 0 2 [u "a"; u "b"] true false (fun d => Ok (adjust_str d))) 0 2
                  4 (combine [u "Q"; u "R"] [u "a"; u "b"]) 0
                  (World [u "b"; u "A"; u "b"] [0; 0; 0] [])))
  /\ 0 <= 1.
Proof.
  assert (H : quiz_loop [u "Q"; u "R"] [u "a"; u "b"] (u "capital") (u "with") true
                (opts_config 0 2 [u "a"; u "b"] true false (fun d => Ok (adjust_str d))) 0 2
                4 (combine [u "Q"; u "R"] [u "a"; u "b"]) 0
                (World [u "b"; u "A"; u "b"] [0; 0; 0] [])
              = (Ok 1, snd (quiz_loop [u "Q"; u "R"] [u "a"; u "b"] (u "capital") (u "with") true
                  (opts_config 0 2 [u "a"; u "b"] true false (fun d => Ok (adjust_str d))) 0 2
                  4 (combine [u "Q"; u "R"] [u "a"; u "b"]) 0
                  (World [u "b"; u "A"; u "b"] [0; 0; 0] []))))
    by (vm_compute; reflexivity).
  split; [exact H | exact (quiz_loop_mistakes_monotone _ _ _ _ _ _ _ _ _ _ _ _ _ _ H)].
Defined.

Lemma split_go_no_comma s cur :
  ~ In 44 s -> ~ In 44 cur -> split_go [44; 32] s cur = [rev cur ++ s].
Proof.
  revert cur; induction s as [|c s IH]; intros cur Hs Hcur; cbn [split_go].
  - now rewrite app_nil_r.
  - assert (Hp : is_prefix (rev [44; 32]) (c :: cur) = false).
    { cbn [rev app is_prefix]. destruct cur as [|c' cur]; [destruct (32 =? c); reflexivity|].
      destruct (Z.eqb_spec 44 c') as [Heq | Hne];
        [exfalso; apply Hcur; left; symmetry; exact Heq | destruct (32 =? c); reflexivity]. }
    cbv zeta. rewrite Hp. rewrite IH.
    + cbn [rev]. now rewrite <- app_assoc.
    + intros H. apply Hs. now right.
    + intros [H | H]; [apply Hs; left; exact H | exact (Hcur H)].
Qed.

Lemma split_go_sep x rest cur :
  ~ In 44 x -> ~ In 44 cur ->
  split_go [44; 32] (x ++ [44; 32] ++ rest) cur = (rev cur ++ x) :: split_go [44; 32] rest [].
Proof.
  revert cur; induction x as [|c x IH]; intros cur Hx Hcur.
  - cbn [app split_go]. cbv zeta.
    replace (is_prefix (rev [44; 32]) (44 :: cur)) with false by reflexivity.
    replace (is_prefix (rev [44; 32]) (32 :: 44 :: cur)) with true
      by reflexivity.
    cbn [List.length skipn]. now rewrite app_nil_r.
  - cbn [app split_go]. cbv zeta.
    assert (Hp : is_prefix (rev [44; 32]) (c :: cur) = false).
    { cbn [rev app is_prefix]. destruct cur as [|c' cur]; [destruct (32 =? c); reflexivity|].
      destruct (Z.eqb_spec 44 c') as [Heq | Hne];
        [exfalso; apply Hcur; left; symmetry; exact Heq | destruct (32 =? c); reflexivity]. }
    rewrite Hp. rewrite IH.
    + cbn [rev]. now rewrite <- app_assoc.
    + intros H. apply Hx. now right.
    + intros [H | H]; [apply Hx; left; exact H | exact (Hcur H)].
Qed.

Lemma split_join_no_comma (sel : list pystr) :
  sel <> [] -> (forall x, In x sel -> ~ In 44 x) ->
  split_go [44; 32] (join [44; 32] sel) [] = sel.
Proof.
  induction sel as [|x sel IH]; intros Hne Hx; [contradiction|].
  destruct sel as [|y sel].
  - cbn [join]. rewrite split_go_no_comma; [reflexivity | apply Hx; now left | intros []].
  - change (join [44; 32] (x :: y :: sel)) with (x ++ [44; 32] ++ join [44; 32] (y :: sel)).
    rewrite split_go_sep; [| apply Hx; now left | intros []].
    rewrite IH; [reflexivity | discriminate |]. intros z Hz. apply Hx. now right.
Qed.

Lemma sorted_str_nonempty (l : list pystr) : l <> [] -> sorted_str l <> [].
Proof.
  destruct l as [|x l]; [contradiction|]. intros _ H.
  assert (Hx : In x (sorted_str (x :: l))) by (apply sorted_str_in; now left).
  rewrite H in Hx. exact Hx.
Qed.

(** The location filter of lines 225-227: the string [choose_opts] returns
    is split at ', ', and a country passes when its region (or subregion)
    is one of the pieces.  When no offered name contains a comma, this is
    exactly membership in the chosen set. *)
Theorem location_condition_selects location (sel : list pystr) c
    (Hne : sel <> []) (Hx : forall x, In x sel -> ~ In 44 x) :
  mem (loc_field location c) (py_split (DELIM ++ u " ") (arr2str sel)) = true
  <-> In (loc_field location c) sel.
Proof.
  change (DELIM ++ u " ") with [44; 32]. unfold py_split, arr2str.
  change (DELIM ++ u " ") with [44; 32].
  rewrite split_join_no_comma.
  - rewrite mem_in. apply sorted_str_in.
  - now apply sorted_str_nonempty.
  - intros x Hs. exact (Hx x (proj1 (sorted_str_in x sel) Hs)).
Qed.

Lemma location_condition_selects_witness :
  [u "Europe"; u "Asia"] <> []
  /\ (forall x, In x [u "Europe"; u "Asia"] -> ~ In 44 x)
  /\ (mem (loc_field (u "region") (sample_country "Belgium" "Europe" ["Cmr"] 30528 true))
          (py_split (DELIM ++ u " ") (arr2str [u "Europe"; u "Asia"])) = true
      <-> In (loc_field (u "region") (sample_country "Belgium" "Europe" ["Cmr"] 30528 true))
             [u "Europe"; u "Asia"]).
Proof.
  assert (H1 : [u "Europe"; u "Asia"] <> []) by discriminate.
  assert (H2 : forall x, In x [u "Europe"; u "Asia"] -> ~ In 44 x)
    by (intros x [<- | [<- | []]]; vm_compute; intros H;
        repeat (destruct H as [H | H]; [discriminate H |]); exact H).
  refine (conj H1 (conj H2 _)).
  exact (location_condition_selects (u "region") _ _ H1 H2).
Defined.

Lemma enum_lines_nth brackets i (cs : list pystr) k :
  (k < List.length cs)%nat ->
  nth k (enum_lines brackets i cs) []
  = fst brackets ++ z2s (i + Z.of_nat k + 1) ++ snd brackets ++ u " " ++ nth k cs [].
Proof.
  revert i k; induction cs as [|c cs IH]; intros i k Hk; cbn [List.length] in Hk; [lia|].
  destruct k as [|k]; cbn [enum_lines nth].
  - now rewrite Z.add_0_r.
  - rewrite IH by lia. do 3 f_equal. lia.
Qed.

Lemma z2s_digits n : 0 <= n -> py_isdigit (z2s n) = true /\ ~ In 44 (z2s n).
Proof.
  intros Hn. unfold z2s. replace (n <? 0) with false by (symmetry; apply Z.ltb_ge; lia).
  destruct (nat_to_s_digits n Hn) as [Hne Hd]. split.
  - destruct (nat_to_s n) as [|c r]; [contradiction|]. cbn [py_isdigit].
    apply forallb_forall. intros x Hx. rewrite Forall_forall in Hd.
    specialize (Hd x Hx). unfold digit_char in Hd. unfold isdigit_char, DIGIT_RANGES.
    cbn [existsb fst snd].
    replace ((48 <=? x) && (x <=? 57)) with true
      by (symmetry; apply andb_true_intro; split; apply Z.leb_le; lia).
    reflexivity.
  - intros H. rewrite Forall_forall in Hd. specialize (Hd 44 H). unfold digit_char in Hd. lia.
Qed.

Lemma split_go_single_no_comma s cur : ~ In 44 s -> split_go [44] s cur = [rev cur ++ s].
Proof.
  revert cur; induction s as [|c s IH]; intros cur Hs; cbn [split_go].
  - now rewrite app_nil_r.
  - assert (Hp : is_prefix (rev [44]) (c :: cur) = false).
    { cbn [rev app is_prefix]. destruct (Z.eqb_spec 44 c) as [Heq | Hne];
        [exfalso; apply Hs; left; symmetry; exact Heq | reflexivity]. }
    cbv zeta. rewrite Hp, IH.
    + cbn [rev]. now rewrite <- app_assoc.
    + intros H. apply Hs. now right.
Qed.

Lemma read_input_arr_index multiple n rest rs outs :
  0 <= n ->
  read_input_arr multiple (World (z2s n :: rest) rs outs) = (Ok [z2s n], World rest rs outs).
Proof.
  intros Hn. destruct (z2s_digits n Hn) as [_ Hc].
  unfold read_input_arr, read_input_line, bind, input. cbn [inputs rands outputs].
  rewrite strip_z2s. pose proof (z2s_nonempty n) as Hne.
  destruct (z2s n) as [|c r] eqn:E; [contradiction|]. rewrite <- E in *.
  unfold ret. destruct multiple; [|reflexivity].
  unfold py_split. change DELIM with [44]. rewrite split_go_single_no_comma by exact Hc.
  cbn [rev app map]. now rewrite strip_z2s.
Qed.

(** Line [k] of the menu [choose_opts] prints shows the number [k+1], and
    typing that number (as [str] prints it) selects choice [k]: the
    choice itself is returned (for [k+1] within the 4300 digits [int]
    accepts). *)
Theorem choose_opts_menu_index head (choices : list pystr) (multiple : bool) k rest rs outs
    (Hk : (k < List.length choices)%nat) (Hb : Z.of_nat k + 1 < 10 ^ 4300) :
  nth k (enum_lines (if multiple then (u "[", u "]") else (u "(", u ")")) 0 choices) []
  = (if multiple then u "[" else u "(") ++ z2s (Z.of_nat k + 1)
    ++ (if multiple then u "]" else u ")") ++ u " " ++ nth k choices []
  /\ exists prompt,
       choose_opts head choices multiple (World (z2s (Z.of_nat k + 1) :: rest) rs outs)
       = (Ok (nth k choices []), World rest rs (outs ++ [prompt])).
Proof.
  assert (Hp : py_int (z2s (Z.of_nat k + 1)) = Some (Z.of_nat k + 1))
    by (apply py_int_z2s; rewrite Z.abs_eq by (clear Hb; lia); exact Hb).
  clear Hb.
  split; [rewrite enum_lines_nth by exact Hk; destruct multiple; reflexivity|].
  eexists. cbv beta iota zeta delta [choose_opts bind print input_fuel].
  cbn [inputs rands outputs List.length choose_opts_loop].
  unfold bind at 1. rewrite read_input_arr_index by lia.
  destruct (z2s_digits (Z.of_nat k + 1) ltac:(lia)) as [Hd _].
  cbn [opts_tokens]. rewrite Hd, Hp. cbv zeta.
  replace ((0 <=? Z.of_nat k + 1 - 1) && (Z.of_nat k + 1 - 1 <? Z.of_nat (List.length choices)))
    with true by (symmetry; apply andb_true_intro; split; [apply Z.leb_le | apply Z.ltb_lt]; lia).
  replace (Z.to_nat (Z.of_nat k + 1 - 1)) with k by lia.
  reflexivity.
Qed.

Lemma choose_opts_menu_index_witness :
  (1 < List.length [u "no"; u "yes"])%nat /\ Z.of_nat 1 + 1 < 10 ^ 4300
  /\ nth 1 (enum_lines (if false then (u "[", u "]") else (u "(", u ")")) 0 [u "no"; u "yes"]) []
     = (if false then u "[" else u "(") ++ z2s (Z.of_nat 1 + 1)
       ++ (if false then u "]" else u ")") ++ u " " ++ nth 1 [u "no"; u "yes"] []
  /\ exists prompt,
       choose_opts (u "limit questions") [u "no"; u "yes"] false
                   (World (z2s (Z.of_nat 1 + 1) :: []) [] [])
       = (Ok (nth 1 [u "no"; u "yes"] []), World [] [] ([] ++ [prompt])).
Proof.
  assert (Hk : (1 < List.length [u "no"; u "yes"])%nat) by (cbn; lia).
  assert (Hb : Z.of_nat 1 + 1 < 10 ^ 4300) by (vm_compute; reflexivity).
  split; [exact Hk|]. split; [exact Hb|].
  exact (choose_opts_menu_index (u "limit questions") [u "no"; u "yes"] false 1 [] [] [] Hk Hb).
Defined.
